(** * devfolio: the snippet list pipeline

    A shallow embedding of the client-side list pipeline of the snippet
    manager: the pagination hook and the debounce hook of
    [src/hooks/index.ts], and the filter chain and mutation handlers of
    [src/app/(dashboard)/snippets/page.tsx].

    Conventions.
    - A React state cell is an explicit value threaded through the
      functions; one call of a hook body is one render.
    - JavaScript numbers that hold array lengths, page sizes and page
      numbers are integers; they are modelled in [Z].  The call sites pass
      integers only ([i + 1], [currentPage + 1], [currentPage - 1], the
      literal page size [9]).
    - Strings are [string]; the text functions are the ASCII restriction
      of their JavaScript counterparts. *)

From Stdlib Require Import ZArith Lia Bool Ascii String.
From stdpp Require Import base list strings gmap.

Local Open Scope Z_scope.

(** ** JavaScript built-ins used by the hooks *)

Module Js.

(** [Math.ceil(n / p)] on an integer numerator and a positive integer
    denominator: the least integer not below the quotient.  Array
    lengths stay below 2^32, so the double-precision quotient never
    rounds across an integer and the integer formula is exact. *)
Definition Math_ceil_div (n p : Z) : Z := - ((- n) / p).

Definition Math_max (a b : Z) : Z := Z.max a b.
Definition Math_min (a b : Z) : Z := Z.min a b.

(** [Array.prototype.slice(start, end)]: a negative index counts from
    the end, both indices are then capped into [0, length], and an empty
    array results when the range is empty. *)
Definition relative_index (len i : Z) : Z :=
  if i <? 0 then Z.max (len + i) 0 else Z.min i len.

Definition Array_slice {A} (xs : list A) (start stop : Z) : list A :=
  let len := Z.of_nat (length xs) in
  let k := relative_index len start in
  let final := relative_index len stop in
  take (Z.to_nat (final - k)) (drop (Z.to_nat k) xs).

End Js.

(** ** 9. usePagination *)

Module Pagination.
Import Js.

(** What one render of the hook returns (the navigation callbacks are
    the functions [goToPage], [nextPage], [prevPage] below, closed over
    the values of the same render). *)
Record View (A : Type) := mkView {
  currentPage : Z;
  totalPages : Z;
  paginatedItems : list A;
  hasNextPage : bool;
  hasPrevPage : bool
}.
Arguments mkView {A}.
Arguments currentPage {A}.
Arguments totalPages {A}.
Arguments paginatedItems {A}.
Arguments hasNextPage {A}.
Arguments hasPrevPage {A}.

(** The initial value of the [currentPage] state cell. *)
Definition initialPage : Z := 1.

Definition pageCount {A} (items : list A) (itemsPerPage : Z) : Z :=
  Math_ceil_div (Z.of_nat (length items)) itemsPerPage.

Definition window {A} (items : list A) (itemsPerPage page : Z) : list A :=
  let startIndex := (page - 1) * itemsPerPage in
  let endIndex := startIndex + itemsPerPage in
  Array_slice items startIndex endIndex.

(** One render: [page] is the content of the state cell. *)
Definition usePagination {A} (items : list A) (itemsPerPage : Z) (page : Z)
  : View A :=
  let total := pageCount items itemsPerPage in
  {| currentPage := page;
     totalPages := total;
     paginatedItems := window items itemsPerPage page;
     hasNextPage := page <? total;
     hasPrevPage := 1 <? page |}.

(** The callbacks; each returns the new content of the state cell. *)
Definition goToPage (total : Z) (page : Z) : Z :=
  Math_max 1 (Math_min page total).

Definition nextPage (total current : Z) : Z := goToPage total (current + 1).
Definition prevPage (total current : Z) : Z := goToPage total (current - 1).

Inductive Nav := GoToPage (n : Z) | NextPage | PrevPage.

(** A navigation call made from the render of [items] at page [page]. *)
Definition navigate {A} (items : list A) (itemsPerPage : Z) (page : Z)
  (a : Nav) : Z :=
  let v := usePagination items itemsPerPage page in
  match a with
  | GoToPage n => goToPage (totalPages v) n
  | NextPage => nextPage (totalPages v) (currentPage v)
  | PrevPage => prevPage (totalPages v) (currentPage v)
  end.

Definition navigateAll {A} (items : list A) (itemsPerPage : Z)
  (acts : list Nav) (page : Z) : Z :=
  fold_left (navigate items itemsPerPage) acts page.

(** What the component sees over time: the list handed to the hook may
    change between renders (a new filter result), or a callback of the
    latest render is invoked.  The state cell is only written by the
    callbacks. *)
Inductive Step (A : Type) :=
  | Rerender (items : list A)
  | Call (a : Nav).
Arguments Rerender {A}.
Arguments Call {A}.

Record Hook (A : Type) := mkHook { props : list A; cell : Z }.
Arguments mkHook {A}.
Arguments props {A}.
Arguments cell {A}.

Definition mount {A} (items : list A) : Hook A :=
  {| props := items; cell := initialPage |}.

Definition step {A} (itemsPerPage : Z) (h : Hook A) (s : Step A) : Hook A :=
  match s with
  | Rerender items => {| props := items; cell := cell h |}
  | Call a => {| props := props h;
                 cell := navigate (props h) itemsPerPage (cell h) a |}
  end.

Definition run {A} (itemsPerPage : Z) (h : Hook A) (ss : list (Step A))
  : Hook A :=
  fold_left (step itemsPerPage) ss h.

Definition render {A} (itemsPerPage : Z) (h : Hook A) : View A :=
  usePagination (props h) itemsPerPage (cell h).

End Pagination.

(** ** Completions: a JavaScript evaluation returns or throws *)

Module Completion.

Inductive JsError :=
  | TypeError        (* a method read on [undefined] *)
  | RequestFailed.   (* a rejected promise of the REST client *)

Inductive t (A : Type) :=
  | Normal (a : A)
  | Throw (e : JsError).
Arguments Normal {A}.
Arguments Throw {A}.

Definition bind {A B} (c : t A) (k : A -> t B) : t B :=
  match c with
  | Normal a => k a
  | Throw e => Throw e
  end.

(** [recv.m(...)]: a [TypeError] when the receiver is [undefined]. *)
Definition invoke {A} (recv : option string) (m : string -> A) : t A :=
  match recv with
  | Some s => Normal (m s)
  | None => Throw TypeError
  end.

(** [recv?.m(...)]: the whole chain is [undefined] when the receiver is. *)
Definition invoke_opt {A} (recv : option string) (m : string -> A)
  : t (option A) :=
  match recv with
  | Some s => Normal (Some (m s))
  | None => Normal None
  end.

(** Values of type [boolean | undefined] and their truthiness. *)
Definition truthy (v : option bool) : bool :=
  match v with
  | Some b => b
  | None => false
  end.

(** [a || b]: the right operand is evaluated only when [a] is falsy. *)
Definition or_else (a : option bool) (b : t (option bool)) : t (option bool) :=
  if truthy a then Normal a else b.

End Completion.

Notation "'let*' x ':=' c 'in' k" := (Completion.bind c (fun x => k))
  (at level 10, x name, c at level 100, k at level 200).

(** ** Strings *)

Module Text.

Definition is_upper (c : ascii) : bool :=
  let n := nat_of_ascii c in (65 <=? n)%nat && (n <=? 90)%nat.

Definition lower_char (c : ascii) : ascii :=
  if is_upper c then ascii_of_nat (nat_of_ascii c + 32) else c.

(** [String.prototype.toLowerCase] *)
Fixpoint toLowerCase (s : string) : string :=
  match s with
  | EmptyString => EmptyString
  | String c r => String (lower_char c) (toLowerCase r)
  end.

(** [String.prototype.startsWith] *)
Fixpoint startsWith (s prefix : string) {struct prefix} : bool :=
  match prefix, s with
  | EmptyString, _ => true
  | String _ _, EmptyString => false
  | String p prefix', String c s' => Ascii.eqb c p && startsWith s' prefix'
  end.

(** [String.prototype.includes] *)
Fixpoint includes (s needle : string) : bool :=
  startsWith s needle ||
  match s with
  | EmptyString => false
  | String _ s' => includes s' needle
  end.

(** A string is truthy when it is not empty. *)
Definition nonempty (s : string) : bool :=
  match s with
  | EmptyString => false
  | String _ _ => true
  end.

(** [String.prototype.trim], on the ASCII white space characters. *)
Definition is_space (c : ascii) : bool :=
  let n := nat_of_ascii c in
  ((9 <=? n)%nat && (n <=? 13)%nat) || (n =? 32)%nat.

Fixpoint trimStart (s : string) : string :=
  match s with
  | EmptyString => EmptyString
  | String c r => if is_space c then trimStart r else s
  end.

Fixpoint trimEnd (s : string) : string :=
  match s with
  | EmptyString => EmptyString
  | String c r =>
      match trimEnd r with
      | EmptyString => if is_space c then EmptyString else String c EmptyString
      | r' => String c r'
      end
  end.

Definition trim (s : string) : string := trimEnd (trimStart s).

(** [s.split(',')]: [cur] is the piece being read. *)
Fixpoint split_from (cur s : string) : list string :=
  match s with
  | EmptyString => [cur]
  | String c r =>
      if Ascii.eqb c ","%char then cur :: split_from EmptyString r
      else split_from (cur ++ String c EmptyString)%string r
  end.

Definition split_comma (s : string) : list string := split_from EmptyString s.

(** The specification side of the text criterion: [needle] occurs in
    [hay] up to the case of letters. *)
Definition ci_substring (needle hay : string) : Prop :=
  exists pre mid post : string,
    hay = (pre ++ mid ++ post)%string /\ toLowerCase mid = toLowerCase needle.

(** ASCII text: every character is below 128.  On ASCII text
    [toLowerCase] and [trim] above are exactly the JavaScript methods
    (which beyond ASCII follow the Unicode case mapping and the Unicode
    white space), so statements about case and white space carry this
    as a hypothesis. *)
Definition ascii_char (c : ascii) : bool := (nat_of_ascii c <? 128)%nat.

Fixpoint ascii_text (s : string) : bool :=
  match s with
  | EmptyString => true
  | String c r => ascii_char c && ascii_text r
  end.




End Text.

(** ** The snippet record ([src/types/index.ts]) *)

Module Types.

Record Snippet := mkSnippet {
  id : Z;
  userId : Z;
  title : string;
  code : string;
  language : string;
  description : option string;
  tags : list string;
  isPublic : bool;
  viewCount : Z;
  createdAt : string;
  updatedAt : string
}.

End Types.

(** ** The filter chain of the snippets page *)

Module Filter.
Import Completion Text Types.

(** [Array.prototype.includes] on strings, [Array.prototype.some], and
    [Array.prototype.filter] with a callback that may throw. *)
Definition Array_includes (xs : list string) (x : string) : bool :=
  existsb (String.eqb x) xs.

Definition Array_some {A} (p : A -> bool) (xs : list A) : bool := existsb p xs.

Fixpoint Array_filter {A} (p : A -> Completion.t bool) (xs : list A)
  : Completion.t (list A) :=
  match xs with
  | [] => Normal []
  | x :: r =>
      let* b := p x in
      let* r' := Array_filter p r in
      Normal (if b then x :: r' else r')
  end.

(** The callback of the search filter. *)
Definition searchPredicate (debouncedSearch : string) (snippet : Snippet)
  : Completion.t bool :=
  let q := toLowerCase debouncedSearch in
  let* a := invoke (Some (title snippet))
              (fun t => includes (toLowerCase t) q) in
  let* ab := or_else (Some a)
               (invoke_opt (description snippet)
                  (fun d => includes (toLowerCase d) q)) in
  let* abc := or_else ab
                (let* c := invoke (Some (code snippet))
                             (fun t => includes (toLowerCase t) q) in
                 Normal (Some c)) in
  Normal (truthy abc).

Definition languagePredicate (selectedLanguage : string) (snippet : Snippet)
  : Completion.t bool :=
  Normal (String.eqb (language snippet) selectedLanguage).

Definition tagPredicate (selectedTags : list string) (snippet : Snippet)
  : Completion.t bool :=
  Normal (Array_some (fun tag => Array_includes (tags snippet) tag) selectedTags).

Definition filteredSnippets (snippets : list Snippet)
  (debouncedSearch selectedLanguage : string) (selectedTags : list string)
  : Completion.t (list Snippet) :=
  let* filtered :=
    if nonempty debouncedSearch
    then Array_filter (searchPredicate debouncedSearch) snippets
    else Normal snippets in
  let* filtered :=
    if negb (String.eqb selectedLanguage "all")
    then Array_filter (languagePredicate selectedLanguage) filtered
    else Normal filtered in
  let* filtered :=
    if 0 <? Z.of_nat (length selectedTags)
    then Array_filter (tagPredicate selectedTags) filtered
    else Normal filtered in
  Normal filtered.

(** The three stages without the completions: what each stage keeps
    when no callback throws. *)
Definition searchHit (debouncedSearch : string) (snippet : Snippet) : bool :=
  let q := toLowerCase debouncedSearch in
  includes (toLowerCase (title snippet)) q
  || match description snippet with
     | Some d => includes (toLowerCase d) q
     | None => false
     end
  || includes (toLowerCase (code snippet)) q.

Definition languageHit (selectedLanguage : string) (snippet : Snippet) : bool :=
  String.eqb (language snippet) selectedLanguage.

Definition tagHit (selectedTags : list string) (snippet : Snippet) : bool :=
  Array_some (fun tag => Array_includes (tags snippet) tag) selectedTags.

Definition stage {A} (active : bool) (p : A -> bool) (l : list A) : list A :=
  if active then List.filter p l else l.

(** The criteria in the words of the specification. *)
Definition textMatch (searchText : string) (snippet : Snippet) : Prop :=
  ci_substring searchText (title snippet)
  \/ (exists d, description snippet = Some d /\ ci_substring searchText d)
  \/ ci_substring searchText (code snippet).

Definition categoryMatch (category : string) (snippet : Snippet) : Prop :=
  language snippet = category.

Definition tagMatch (selected : list string) (snippet : Snippet) : Prop :=
  exists t, In t selected /\ In t (tags snippet).


End Filter.

(** ** The snippets page: state, REST calls and handlers *)

Module Page.
Import Completion Text Types.

(** The state cells of [SnippetsPage], of the form and of the edited
    card that the handlers write. *)
Record Ui := mkUi {
  snippets : list Snippet;
  isLoading : bool;
  isDialogOpen : bool;        (* useToggle of the create dialog *)
  isEditDialogOpen : bool;    (* useToggle of the card's edit dialog *)
  isSubmitting : bool
}.

(** [useState] initial values. *)
Definition initialUi : Ui :=
  {| snippets := []; isLoading := true; isDialogOpen := false;
     isEditDialogOpen := false; isSubmitting := false |}.

Record FormData := mkFormData {
  f_title : string;
  f_code : string;
  f_language : string;
  f_description : string;
  f_tags : string;
  f_isPublic : bool
}.

(** The payload of create and update: the form with its tags parsed. *)
Record Payload := mkPayload {
  p_title : string;
  p_code : string;
  p_language : string;
  p_description : string;
  p_tags : list string;
  p_isPublic : bool
}.

(** The calls of [snippetsApi] the page makes. *)
Inductive ApiCall :=
  | ApiGetAll
  | ApiCreate (data : Payload)
  | ApiUpdate (id : Z) (data : Payload)
  | ApiDelete (id : Z).

Inductive ToastKind := ToastSuccess | ToastError.

(** What the page does to the outside, in order. *)
Inductive Event :=
  | Request (c : ApiCall)
  | Toast (k : ToastKind) (msg : string).

(** [pending] counts the [fetchSnippets()] calls that were started
    without [await] and whose response has not been handled yet. *)
Record World := mkWorld {
  ui : Ui;
  log : list Event;
  pending : nat
}.

Definition Eff (A : Type) : Type := World -> Completion.t A * World.

Definition ret {A} (a : A) : Eff A := fun w => (Normal a, w).

Definition bindE {A B} (c : Eff A) (k : A -> Eff B) : Eff B :=
  fun w =>
    match c w with
    | (Normal a, w1) => k a w1
    | (Throw e, w1) => (Throw e, w1)
    end.

Definition seqE {A B} (c : Eff A) (k : Eff B) : Eff B := bindE c (fun _ => k).

(** [try { body } catch (error) { handler }] *)
Definition try_catch {A} (body : Eff A) (handler : JsError -> Eff A) : Eff A :=
  fun w =>
    match body w with
    | (Normal a, w1) => (Normal a, w1)
    | (Throw e, w1) => handler e w1
    end.

(** [try { body } finally { fin }] *)
Definition try_finally {A} (body : Eff A) (fin : Eff unit) : Eff A :=
  fun w =>
    match body w with
    | (r, w1) =>
        match fin w1 with
        | (Normal _, w2) => (r, w2)
        | (Throw e, w2) => (Throw e, w2)
        end
    end.

Definition modify (f : Ui -> Ui) : Eff unit :=
  fun w => (Normal tt, {| ui := f (ui w); log := log w; pending := pending w |}).

Definition emit (e : Event) : Eff unit :=
  fun w => (Normal tt,
            {| ui := ui w; log := log w ++ [e]; pending := pending w |}).

(** [await call]: the request goes out, then the promise settles with
    the reply the collaborator gives; a rejection is thrown. *)
Definition settle {A} (reply : Completion.t A) : Eff A := fun w => (reply, w).

Definition await {A} (c : ApiCall) (reply : Completion.t A) : Eff A :=
  seqE (emit (Request c)) (settle reply).

(** State setters. *)
Definition setSnippets (f : list Snippet -> list Snippet) : Eff unit :=
  modify (fun u =>
    {| snippets := f (snippets u); isLoading := isLoading u;
       isDialogOpen := isDialogOpen u;
       isEditDialogOpen := isEditDialogOpen u;
       isSubmitting := isSubmitting u |}).

Definition setIsLoading (b : bool) : Eff unit :=
  modify (fun u =>
    {| snippets := snippets u; isLoading := b;
       isDialogOpen := isDialogOpen u;
       isEditDialogOpen := isEditDialogOpen u;
       isSubmitting := isSubmitting u |}).

Definition setIsSubmitting (b : bool) : Eff unit :=
  modify (fun u =>
    {| snippets := snippets u; isLoading := isLoading u;
       isDialogOpen := isDialogOpen u;
       isEditDialogOpen := isEditDialogOpen u;
       isSubmitting := b |}).

(** [setFalse] of the two [useToggle] instances. *)
Definition closeDialog : Eff unit :=
  modify (fun u =>
    {| snippets := snippets u; isLoading := isLoading u;
       isDialogOpen := false;
       isEditDialogOpen := isEditDialogOpen u;
       isSubmitting := isSubmitting u |}).

Definition closeEdit : Eff unit :=
  modify (fun u =>
    {| snippets := snippets u; isLoading := isLoading u;
       isDialogOpen := isDialogOpen u;
       isEditDialogOpen := false;
       isSubmitting := isSubmitting u |}).

Definition toast_success (msg : string) : Eff unit := emit (Toast ToastSuccess msg).
Definition toast_error (msg : string) : Eff unit := emit (Toast ToastError msg).

Notation "c1 ;; c2" := (seqE c1 c2)
  (at level 100, c2 at level 200, right associativity).
Notation "'let!' x ':=' c 'in' k" := (bindE c (fun x => k))
  (at level 10, x name, c at level 100, k at level 200).

(** [fetchSnippets] has one [await].  [fetchSnippets_begin] is the part
    before it, [fetchSnippets_resume] the part after the reply. *)
Definition fetchSnippets_begin : Eff unit :=
  setIsLoading true ;; emit (Request ApiGetAll).

Definition fetchSnippets_resume (reply : Completion.t (list Snippet))
  : Eff unit :=
  try_finally
    (try_catch
       (let! data := settle reply in setSnippets (fun _ => data))
       (fun _ => toast_error "Failed to load snippets"))
    (setIsLoading false).

(** The awaited whole. *)
Definition fetchSnippets (reply : Completion.t (list Snippet)) : Eff unit :=
  fetchSnippets_begin ;; fetchSnippets_resume reply.

(** [fetchSnippets()] called without [await]: it runs up to its
    [await] and the rest is left to the event loop. *)
Definition fetchSnippets_detached : Eff unit :=
  fetchSnippets_begin ;;
  (fun w => (Normal tt,
             {| ui := ui w; log := log w; pending := S (pending w) |})).

(** The event loop delivers the reply of one detached fetch. *)
Definition deliver (reply : Completion.t (list Snippet)) : Eff unit :=
  fun w =>
    match pending w with
    | O => (Normal tt, w)
    | S n =>
        fetchSnippets_resume reply
          {| ui := ui w; log := log w; pending := n |}
    end.

(** [handleDelete]: [confirmed] is the answer to the [confirm] box,
    [reply] what [snippetsApi.delete] settles to. *)
Definition handleDelete (confirmed : bool) (reply : Completion.t unit)
  (id : Z) : Eff unit :=
  if negb confirmed then ret tt
  else
    try_catch
      (await (ApiDelete id) reply ;;
       setSnippets (fun prev =>
         List.filter (fun s => negb (Types.id s =? id)) prev) ;;
       toast_success "Snippet deleted")
      (fun _ => toast_error "Failed to delete snippet").

Definition parseTags (s : string) : list string :=
  List.filter nonempty (map trim (split_comma s)).

Definition payload (formData : FormData) : Payload :=
  {| p_title := f_title formData; p_code := f_code formData;
     p_language := f_language formData;
     p_description := f_description formData;
     p_tags := parseTags (f_tags formData);
     p_isPublic := f_isPublic formData |}.

(** [SnippetForm.handleSubmit] *)
Definition handleSubmit (snippet : option Snippet) (formData : FormData)
  (onSuccess : Eff unit) (reply : Completion.t Snippet) : Eff unit :=
  setIsSubmitting true ;;
  try_finally
    (try_catch
       (let data := payload formData in
        match snippet with
        | Some s =>
            (let! _ := await (ApiUpdate (Types.id s) data) reply in
             toast_success "Snippet updated")
        | None =>
            (let! _ := await (ApiCreate data) reply in
             toast_success "Snippet created")
        end ;;
        onSuccess)
       (fun _ => toast_error "Failed to save snippet"))
    (setIsSubmitting false).

(** The [onSuccess] props the page passes to the form. *)
Definition onCreateSuccess : Eff unit := fetchSnippets_detached ;; closeDialog.
Definition onEditSuccess : Eff unit := fetchSnippets_detached ;; closeEdit.

(** A mutation as the user triggers it, followed by the delivery of
    the reply to the list request it may have left pending. *)
Inductive Mutation :=
  | Create (formData : FormData)
  | Update (snippet : Snippet) (formData : FormData)
  | Delete (id : Z).

Definition mutate (m : Mutation) (reply : Completion.t Snippet)
  (listReply : Completion.t (list Snippet)) : Eff unit :=
  match m with
  | Create formData =>
      handleSubmit None formData onCreateSuccess reply ;; deliver listReply
  | Update s formData =>
      handleSubmit (Some s) formData onEditSuccess reply ;; deliver listReply
  | Delete id =>
      handleDelete true (let* _ := reply in Normal tt) id ;; deliver listReply
  end.

Definition exec {A} (c : Eff A) (w : World) : World := snd (c w).
Definition result {A} (c : Eff A) (w : World) : Completion.t A := fst (c w).

(** The request for the full list is among the requests made. *)
Definition refetched (before after : World) : Prop :=
  exists evs, log after = log before ++ evs /\ In (Request ApiGetAll) evs.

End Page.

(** ** 2. useDebounce

    The hook under a discrete clock (milliseconds).  The runtime is the
    one React and the browser give.  The effect runs after the first
    render and after each render whose dependencies [value, delay]
    differ from those of the previous render; its cleanup runs before
    the next run of the effect and at unmount.  [setTimeout] adds a
    timer to the pending timers and returns its id; [clearTimeout]
    removes the timer with the id it is given and no other; a timer
    fires once the clock has reached its due time, timers that are due
    together fire in the order of their due times, then of their
    creation.  A state update from a callback is dropped by React when
    the component is unmounted; the call itself is still made. *)

Module Debounce.

Local Open Scope N_scope.

(** The delay [setTimeout] uses: its argument is converted to a signed
    32-bit integer, and a negative result counts as 0. *)
Definition timeoutOf (delay : N) : N :=
  let wrapped := delay mod 2 ^ 32 in
  if wrapped <? 2 ^ 31 then wrapped else 0.

Section Hook.
Context {T : Type} `{EqDecision T}.

(** A pending timer of the hook: its id, its due time and the [value]
    its callback [() => setDebouncedValue(value)] closes over. *)
Record Timer := mkTimer { tid : N; due : N; payload : T }.

Record State := mkState {
  value : T;                  (* the argument of the latest render *)
  delay : N;
  debouncedValue : T;         (* the state cell, which is returned *)
  handler : N;                (* the id the latest effect got from
                                 [setTimeout]; its cleanup closes over it *)
  timers : list Timer;        (* pending timers, in order of creation *)
  nextId : N;                 (* the id the next [setTimeout] returns *)
  emitted : list T;           (* the arguments of the calls of
                                 [setDebouncedValue], oldest first *)
  clock : N;
  mounted : bool
}.

Inductive Event :=
  | Render (v : T) (d : N)        (* the owner renders with new arguments *)
  | Elapse (dt : N)               (* time passes, due timers fire *)
  | Unmount.

Definition defaultDelay : N := 500.

(** [setTimeout(() => setDebouncedValue(v), d)] *)
Definition setTimeout (v : T) (d : N) (s : State) : State :=
  {| value := value s; delay := delay s; debouncedValue := debouncedValue s;
     handler := nextId s;
     timers := timers s ++ [mkTimer (nextId s) (clock s + timeoutOf d) v];
     nextId := nextId s + 1; emitted := emitted s; clock := clock s;
     mounted := mounted s |}.

(** [clearTimeout(id)] *)
Definition clearTimeout (id : N) (s : State) : State :=
  {| value := value s; delay := delay s; debouncedValue := debouncedValue s;
     handler := handler s;
     timers := List.filter (fun t => negb (tid t =? id)) (timers s);
     nextId := nextId s; emitted := emitted s; clock := clock s;
     mounted := mounted s |}.

(** The effect body, run for the render with arguments [v] and [d]. *)
Definition effect (s : State) (v : T) (d : N) : State :=
  let s' := setTimeout v d s in
  {| value := v; delay := d; debouncedValue := debouncedValue s';
     handler := handler s'; timers := timers s'; nextId := nextId s';
     emitted := emitted s'; clock := clock s'; mounted := mounted s' |}.

(** The cleanup of the latest effect: [clearTimeout(handler)] *)
Definition cleanup (s : State) : State := clearTimeout (handler s) s.

(** First render at time [t0]: [useState(value)], then the effect. *)
Definition mount (v : T) (d : N) (t0 : N) : State :=
  effect {| value := v; delay := d; debouncedValue := v; handler := 0;
            timers := []; nextId := 1; emitted := []; clock := t0;
            mounted := true |} v d.

(** The callback of a timer: [setDebouncedValue(payload)]. *)
Definition callback (s : State) (t : Timer) : State :=
  {| value := value s; delay := delay s;
     debouncedValue := if mounted s then payload t else debouncedValue s;
     handler := handler s; timers := timers s; nextId := nextId s;
     emitted := emitted s ++ [payload t]; clock := clock s;
     mounted := mounted s |}.

(** The order in which timers that are due fire: by due time, timers
    with the same due time in the order of their creation. *)
Fixpoint insert_by_due (t : Timer) (l : list Timer) : list Timer :=
  match l with
  | [] => [t]
  | u :: r => if due t <? due u then t :: l else u :: insert_by_due t r
  end.

Definition firingOrder (l : list Timer) : list Timer :=
  fold_left (fun sorted t => insert_by_due t sorted) l [].

(** Time reaches [now]: the timers due by then fire. *)
Definition fire (s : State) (now : N) : State :=
  let ready := List.filter (fun t => due t <=? now) (timers s) in
  let waiting := List.filter (fun t => negb (due t <=? now)) (timers s) in
  fold_left callback (firingOrder ready)
    {| value := value s; delay := delay s;
       debouncedValue := debouncedValue s; handler := handler s;
       timers := waiting; nextId := nextId s; emitted := emitted s;
       clock := now; mounted := mounted s |}.

Definition unmount (s : State) : State :=
  let s' := cleanup s in
  {| value := value s'; delay := delay s';
     debouncedValue := debouncedValue s'; handler := handler s';
     timers := timers s'; nextId := nextId s'; emitted := emitted s';
     clock := clock s'; mounted := false |}.

Definition step (s : State) (e : Event) : State :=
  match e with
  | Render v d =>
      if mounted s then
        if decide (v = value s /\ d = delay s) then s
        else effect (cleanup s) v d
      else s
  | Elapse dt => fire s (clock s + dt)
  | Unmount => if mounted s then unmount s else s
  end.

Definition run (s : State) (es : list Event) : State := fold_left step es s.

Definition is_elapse (e : Event) : bool :=
  match e with Elapse _ => true | _ => false end.

Fixpoint elapsed (es : list Event) : N :=
  match es with
  | [] => 0
  | Elapse dt :: r => dt + elapsed r
  | _ :: r => elapsed r
  end.

(** What holds of the hook in every state it can reach: at most one
    timer is pending, it is the one the cleanup knows, and it carries
    the latest input. *)
Definition consistent (s : State) : Prop :=
  match timers s with
  | [] => mounted s = true -> debouncedValue s = value s
  | [t] =>
      mounted s = true /\ tid t = handler s /\ payload t = value s /\
      due t <= clock s + timeoutOf (delay s)
  | _ => False
  end.


End Hook.

Arguments Timer : clear implicits.
Arguments State : clear implicits.
Arguments Event : clear implicits.

End Debounce.

(** ** Sample data of the scenarios *)

Module Fixtures.
Import Types.

Definition sample (i : Z) (t : string) (d : option string) (ts : list string)
  : Snippet :=
  {| id := i; userId := 1; title := t; code := "x"; language := "typescript";
     description := d; tags := ts; isPublic := false; viewCount := 0;
     createdAt := "2024-01-01"; updatedAt := "2024-01-01" |}.

(** Ten snippets, three of them tagged [react]. *)
Definition ten : list Snippet :=
  [ sample 1 "a" None ["react"]; sample 2 "b" None ["vue"];
    sample 3 "c" None []; sample 4 "d" None ["react"; "hooks"];
    sample 5 "e" None ["css"]; sample 6 "f" None ["vue"];
    sample 7 "g" None ["testing"]; sample 8 "h" None ["react"];
    sample 9 "i" None []; sample 10 "j" None ["sql"] ].

Definition three : list Snippet :=
  [ sample 1 "a" None ["react"]; sample 4 "d" None ["react"; "hooks"];
    sample 8 "h" None ["react"] ].

Definition foobar : Snippet := sample 1 "Foobar" (Some "") [].
Definition untitled : Snippet := sample 3 "Foo util" None [].

Definition form : Page.FormData :=
  {| Page.f_title := "t"; Page.f_code := "c"; Page.f_language := "javascript";
     Page.f_description := ""; Page.f_tags := "react, hooks ,,";
     Page.f_isPublic := false |}.

Definition world (l : list Snippet) : Page.World :=
  {| Page.ui := {| Page.snippets := l; Page.isLoading := false;
                   Page.isDialogOpen := false;
                   Page.isEditDialogOpen := false;
                   Page.isSubmitting := false |};
     Page.log := []; Page.pending := 0 |}.

End Fixtures.

(** ** The page buttons and the tag controls of the snippets page *)

Module Controls.
Import Text Types Filter.

(** [[...Array(totalPages)].map((_, i) => i + 1)]: the pages the
    numbered buttons lead to. *)
Definition pageNumbers (totalPages : Z) : list Z :=
  map (fun i => Z.of_nat i + 1) (seq 0 (Z.to_nat totalPages)).

(** [Set.prototype.add] on a set kept in insertion order. *)
Definition Set_add (tags : list string) (tag : string) : list string :=
  if Array_includes tags tag then tags else tags ++ [tag].

(** [allTags]: the tags of all snippets, each once, as [Array.from]
    lists the set. *)
Definition allTags (snippets : list Snippet) : list string :=
  fold_left (fun tags snippet => fold_left Set_add (Types.tags snippet) tags)
    snippets [].

(** The click handler of a tag badge, as the updater passed to
    [setSelectedTags]. *)
Definition toggleTag (tag : string) (prev : list string) : list string :=
  if Array_includes prev tag
  then List.filter (fun t => negb (String.eqb t tag)) prev
  else prev ++ [tag].

(** [Array.prototype.join] *)
Definition Array_join (sep : string) (xs : list string) : string :=
  String.concat sep xs.

(** [s || d] on strings. *)
Definition or_default (s d : string) : string := if nonempty s then s else d.

(** The initial [formData] of [SnippetForm]. *)
Definition initialFormData (snippet : option Snippet) : Page.FormData :=
  match snippet with
  | Some s =>
      {| Page.f_title := or_default (title s) "";
         Page.f_code := or_default (code s) "";
         Page.f_language := or_default (language s) "javascript";
         Page.f_description :=
           match description s with
           | Some d => or_default d ""
           | None => ""
           end;
         Page.f_tags := or_default (Array_join ", " (tags s)) "";
         Page.f_isPublic := isPublic s |}
  | None =>
      {| Page.f_title := ""; Page.f_code := "";
         Page.f_language := "javascript"; Page.f_description := "";
         Page.f_tags := ""; Page.f_isPublic := false |}
  end.

(** A tag that survives the form unchanged: trimmed, not empty, and
    free of commas. *)
Definition cleanTag (t : string) : Prop :=
  trim t = t /\ t <> "" /\ ~ In ","%char (list_ascii_of_string t).

(** The string is empty or begins with a character that [trim] keeps. *)
Definition starts_clean (s : string) : Prop :=
  match s with
  | EmptyString => True
  | String c _ => is_space c = false
  end.

End Controls.

(** ** 19. useArray *)

Module ArrayHook.
Import Js.

(** [xs.slice(start)]: the end defaults to the length. *)
Definition Array_slice_from {A} (xs : list A) (start : Z) : list A :=
  Array_slice xs start (Z.of_nat (length xs)).

(** The updaters the callbacks pass to [setArray]. *)
Definition push {A} (element : A) (prev : list A) : list A :=
  prev ++ [element].

Definition filter {A} (callback : A -> bool) (prev : list A) : list A :=
  List.filter callback prev.

Definition update {A} (index : Z) (newElement : A) (prev : list A) : list A :=
  Array_slice prev 0 index ++ [newElement] ++ Array_slice_from prev (index + 1).

Definition remove {A} (index : Z) (prev : list A) : list A :=
  Array_slice prev 0 index ++ Array_slice_from prev (index + 1).

Definition clear {A} (prev : list A) : list A := [].

End ArrayHook.

(** ** 10. useForm

    The form values are a record with string keys ([Record<string, any>])
    and the errors a partial record of messages; both are finite maps. *)

Module Form.
Import Completion Text.

Section WithValue.
Context {V : Type}.

Record State := mkState {
  values : gmap string V;
  errors : gmap string string;
  isSubmitting : bool
}.

Definition init (initialValues : gmap string V) : State :=
  {| values := initialValues; errors := ∅; isSubmitting := false |}.

(** [errors[name]] as a condition: a message that is not empty. *)
Definition hasError (errors : gmap string string) (name : string) : bool :=
  match errors !! name with
  | Some msg => nonempty msg
  | None => false
  end.

Definition handleChange (name : string) (value : V) (st : State) : State :=
  {| values := <[name := value]> (values st);
     errors := if hasError (errors st) name
               then delete name (errors st)
               else errors st;
     isSubmitting := isSubmitting st |}.

Definition setErrors (e : gmap string string) (st : State) : State :=
  {| values := values st; errors := e; isSubmitting := isSubmitting st |}.

Definition reset (initialValues : gmap string V) (st : State) : State :=
  {| values := initialValues; errors := ∅; isSubmitting := isSubmitting st |}.

(** [handleSubmit]: [outcome] is how [onSubmit(values)] ends; the
    second component tells whether [console.error] was called. *)
Definition handleSubmit (outcome : Completion.t unit) (st : State)
  : State * bool :=
  ({| values := values st; errors := errors st; isSubmitting := false |},
   match outcome with
   | Normal _ => false
   | Throw _ => true
   end).

End WithValue.

Arguments State : clear implicits.

End Form.

(** ** 1. useLocalStorage and 8. useTheme

    [parse] is [JSON.parse] at the type of the stored value ([None]
    when it throws) and [stringify] is [JSON.stringify]. *)

Module LocalStorage.
Import Text.

Record Env := mkEnv {
  hasWindow : bool;                 (* [typeof window !== 'undefined'] *)
  storage : gmap string string      (* [window.localStorage] *)
}.

Section WithJson.
Context {T : Type} (parse : string -> option T) (stringify : T -> string).

(** The initializer of the state cell. *)
Definition initialState (key : string) (initialValue : T) (env : Env) : T :=
  if negb (hasWindow env) then initialValue
  else
    match storage env !! key with
    | Some item =>
        if nonempty item
        then match parse item with
             | Some v => v
             | None => initialValue       (* the [catch] branch *)
             end
        else initialValue
    | None => initialValue
    end.

(** [setValue]: the argument is a value or an updater; [writable]
    tells whether [setItem] succeeds or throws (a full storage).  The
    result is the new state cell and the new storage. *)
Definition setValue (key : string) (value : T + (T -> T)) (writable : bool)
  (storedValue : T) (env : Env) : T * Env :=
  let valueToStore :=
    match value with
    | inl v => v
    | inr f => f storedValue
    end in
  (valueToStore,
   if hasWindow env && writable
   then {| hasWindow := hasWindow env;
           storage := <[key := stringify valueToStore]> (storage env) |}
   else env).

End WithJson.

(** [useTheme]: the updater of [toggleTheme] and the effect on the
    class list of the root element. *)
Definition toggleTheme (prev : string) : string :=
  if String.eqb prev "light" then "dark" else "light".

Definition applyTheme (theme : string) (classList : gset string)
  : gset string :=
  (classList ∖ {["light"; "dark"]}) ∪ {[theme]}.

End LocalStorage.

(** ** 4. useKeyPress and 15. usePrevious *)

Module KeyPress.

Inductive KeyEvent := KeyDown (key : string) | KeyUp (key : string).

Definition keyOf (e : KeyEvent) : string :=
  match e with KeyDown k | KeyUp k => k end.

(** [downHandler] and [upHandler] on the state cell. *)
Definition handle (targetKey : string) (keyPressed : bool) (e : KeyEvent)
  : bool :=
  match e with
  | KeyDown key => if String.eqb key targetKey then true else keyPressed
  | KeyUp key => if String.eqb key targetKey then false else keyPressed
  end.

Definition useKeyPress (targetKey : string) (es : list KeyEvent) : bool :=
  fold_left (handle targetKey) es false.

End KeyPress.

Module Previous.

Section Hook.
Context {T : Type} `{EqDecision T}.

(** The ref and the dependency of the last run of the effect. *)
Record State := mkState { ref : option T; deps : option T }.

Definition initial : State := {| ref := None; deps := None |}.

(** One render: the value returned, and the state after the effect. *)
Definition render (value : T) (st : State) : option T * State :=
  (ref st,
   if decide (deps st = Some value) then st
   else {| ref := Some value; deps := Some value |}).

(** What a sequence of renders returns, render by render. *)
Fixpoint renders (vs : list T) (st : State) : list (option T) :=
  match vs with
  | [] => []
  | v :: vs' => fst (render v st) :: renders vs' (snd (render v st))
  end.

End Hook.

Arguments State : clear implicits.

End Previous.

(** ** The route guard ([middleware.ts]) *)

Module Middleware.
Import Text.

Inductive Response :=
  | Redirect (pathname : string)    (* [NextResponse.redirect] *)
  | Next.                           (* [NextResponse.next] *)

(** [token]: the value of the [token] cookie, if there is one. *)
Definition hasToken (token : option string) : bool :=
  match token with
  | Some t => nonempty t
  | None => false
  end.

Definition isAuthPage (pathname : string) : bool :=
  startsWith pathname "/login" || startsWith pathname "/register".

Definition isDashboard (pathname : string) : bool :=
  startsWith pathname "/portfolio" ||
  startsWith pathname "/snippets" ||
  startsWith pathname "/interview-prep" ||
  startsWith pathname "/blog" ||
  startsWith pathname "/analytics".

Definition middleware (token : option string) (pathname : string) : Response :=
  if isDashboard pathname && negb (hasToken token) then Redirect "/login"
  else if isAuthPage pathname && hasToken token then Redirect "/portfolio"
  else Next.

End Middleware.

(** ** The auth store ([authStore.ts])

    The state of the store and what [login] and [logout] write outside
    it: the [token] entry of [localStorage], and the strings assigned to
    [document.cookie], oldest first.  The [persist] wrapper keeps a copy
    of the state under another key of [localStorage] and restores the
    state from it when the store is created, so the state a session
    starts in is not fixed here: the properties below hold from every
    starting state. *)

Module AuthStore.

Record User := mkUser {
  id : Z;
  email : string;
  firstName : string;
  lastName : string;
  profilePicture : option string
}.

(** [Partial<User>]: [None] is a key that is not given. *)
Record PartialUser := mkPartialUser {
  u_id : option Z;
  u_email : option string;
  u_firstName : option string;
  u_lastName : option string;
  u_profilePicture : option (option string)
}.

Record World := mkWorld {
  token : option string;
  user : option User;
  isAuthenticated : bool;
  tokenItem : option string;      (* [localStorage.getItem('token')] *)
  cookieWrites : list string      (* assignments to [document.cookie] *)
}.

(** The two strings assigned to [document.cookie];
    [60 * 60 * 24 * 7] is 604800. *)
Definition loginCookie (t : string) : string :=
  ("token=" ++ t ++ "; path=/; max-age=604800")%string.

Definition logoutCookie : string :=
  "token=; path=/; expires=Thu, 01 Jan 1970 00:00:01 GMT".

Definition login (t : string) (u : User) (w : World) : World :=
  {| token := Some t; user := Some u; isAuthenticated := true;
     tokenItem := Some t;
     cookieWrites := cookieWrites w ++ [loginCookie t] |}.

Definition logout (w : World) : World :=
  {| token := None; user := None; isAuthenticated := false;
     tokenItem := None;
     cookieWrites := cookieWrites w ++ [logoutCookie] |}.

(** [{ ...state.user, ...userData }] *)
Definition merge (u : User) (d : PartialUser) : User :=
  {| id := default (id u) (u_id d);
     email := default (email u) (u_email d);
     firstName := default (firstName u) (u_firstName d);
     lastName := default (lastName u) (u_lastName d);
     profilePicture := default (profilePicture u) (u_profilePicture d) |}.

Definition updateUser (d : PartialUser) (w : World) : World :=
  {| token := token w;
     user := match user w with
             | Some u => Some (merge u d)
             | None => None
             end;
     isAuthenticated := isAuthenticated w;
     tokenItem := tokenItem w;
     cookieWrites := cookieWrites w |}.

Inductive Action :=
  | Login (t : string) (u : User)
  | Logout
  | UpdateUser (d : PartialUser).

Definition act (w : World) (a : Action) : World :=
  match a with
  | Login t u => login t u w
  | Logout => logout w
  | UpdateUser d => updateUser d w
  end.

Definition run (w : World) (acts : list Action) : World := fold_left act acts w.

Definition startsOrEndsSession (a : Action) : bool :=
  match a with
  | Login _ _ | Logout => true
  | UpdateUser _ => false
  end.

(** The parts of the state agree with each other and with the stored
    token. *)
Definition store_agrees (w : World) : Prop :=
  (isAuthenticated w = true <-> is_Some (token w)) /\
  (is_Some (token w) <-> is_Some (user w)) /\
  tokenItem w = token w.

(** The latest assignment to [document.cookie] is the one that goes
    with the state. *)
Definition cookie_agrees (w : World) : Prop :=
  last (cookieWrites w) =
  Some (match token w with
        | Some t => loginCookie t
        | None => logoutCookie
        end).

End AuthStore.

(** * Properties *)

(** ** Pagination *)

Section PaginationFacts.
Import Js Pagination.

Lemma Math_ceil_div_bounds (n p : Z) :
  0 < p -> (Math_ceil_div n p - 1) * p < n <= Math_ceil_div n p * p.
Proof.
  intros Hp. unfold Math_ceil_div.
  pose proof (Z.div_mod (- n) p ltac:(lia)) as Hdm.
  pose proof (Z.mod_pos_bound (- n) p Hp) as Hm.
  nia.
Qed.

(** The ceiling is the only integer between the two bounds. *)
Lemma Math_ceil_div_unique (n p k : Z) :
  0 < p -> (k - 1) * p < n <= k * p -> Math_ceil_div n p = k.
Proof.
  intros Hp Hk. pose proof (Math_ceil_div_bounds n p Hp) as Hc. nia.
Qed.

Lemma Math_ceil_div_0 (p : Z) : 0 < p -> Math_ceil_div 0 p = 0.
Proof. intros Hp. apply Math_ceil_div_unique; lia. Qed.

Lemma Array_slice_nil {A} (a b : Z) : Array_slice (@nil A) a b = [].
Proof. unfold Array_slice. now rewrite drop_nil, take_nil. Qed.

Lemma goToPage_range (total page : Z) :
  1 <= goToPage total page <= Z.max 1 total.
Proof. unfold goToPage, Math_max, Math_min. lia. Qed.

Lemma goToPage_clamps (total page : Z) :
  1 <= total ->
  1 <= goToPage total page <= total /\
  (1 <= page <= total -> goToPage total page = page) /\
  (page < 1 -> goToPage total page = 1) /\
  (total < page -> goToPage total page = total).
Proof. unfold goToPage, Math_max, Math_min. lia. Qed.

Lemma navigate_range {A} (items : list A) (p page : Z) (a : Nav) :
  1 <= navigate items p page a <= Z.max 1 (pageCount items p).
Proof.
  destruct a; cbn [navigate usePagination totalPages currentPage];
    unfold nextPage, prevPage; apply goToPage_range.
Qed.

Lemma navigateAll_range {A} (items : list A) (p : Z) (acts : list Nav) :
  forall page,
    1 <= page <= Z.max 1 (pageCount items p) ->
    1 <= navigateAll items p acts page <= Z.max 1 (pageCount items p).
Proof.
  unfold navigateAll.
  induction acts as [|a acts IH]; intros page Hpage; cbn [fold_left].
  - exact Hpage.
  - apply IH, navigate_range.
Qed.

End PaginationFacts.

Section PaginationClaims.
Import Js Pagination.

(** C7.  For every list and page size [p > 0], starting from page 1,
    after any finite sequence of [goToPage n], [nextPage] and [prevPage]
    calls the current page lies between 1 and [max 1 k], where [k] is
    the ceiling of [length / p]; and [goToPage] never fails: with at
    least one page it maps every request into [1, totalPages], leaving
    requests in range as they are and sending the others to the nearer
    end. *)
Theorem C7_navigation_stays_in_range {A} (items : list A) (p k : Z)
  (acts : list Nav) :
  0 < p ->
  (k - 1) * p < Z.of_nat (length items) <= k * p ->
  1 <= navigateAll items p acts initialPage <= Z.max 1 k /\
  totalPages (usePagination items p initialPage) = k /\
  forall n : Z,
    1 <= goToPage k n <= Z.max 1 k /\
    (1 <= k ->
     1 <= goToPage k n <= k /\
     (1 <= n <= k -> goToPage k n = n) /\
     (n < 1 -> goToPage k n = 1) /\
     (k < n -> goToPage k n = k)).
Proof.
  intros Hp Hk.
  assert (Hcount : pageCount items p = k)
    by (apply Math_ceil_div_unique; assumption).
  split; [| split].
  - rewrite <- Hcount. apply navigateAll_range.
    unfold initialPage. lia.
  - exact Hcount.
  - intros n. split.
    + apply goToPage_range.
    + intros Hk1. apply goToPage_clamps, Hk1.
Qed.

Lemma C7_navigation_stays_in_range_witness :
  1 <= navigateAll [10; 20; 30]%nat 2
         [NextPage; NextPage; NextPage; GoToPage (-4); PrevPage; GoToPage 7]
         initialPage <= Z.max 1 2.
Proof.
  refine (proj1 (C7_navigation_stays_in_range [10; 20; 30]%nat 2 2 _ _ _)).
  - lia.
  - cbn. lia.
Defined.

(** C3.  For every list of length [n] and page size [p > 0] the total
    page count is the ceiling of [n / p]: the least [k] with
    [n <= k * p].  For an empty list that ceiling is 0 and there is one
    page as far as navigation goes: the range [1, max 1 totalPages] of
    the current page is the single page 1, every sequence of navigation
    calls from the first render ends on page 1, and the item window is
    empty whatever the current page is. *)
Theorem C3_total_pages_is_ceiling {A} (items : list A) (p page : Z)
  (acts : list Nav) :
  0 < p ->
  let v := usePagination items p page in
  (totalPages v - 1) * p < Z.of_nat (length items) <= totalPages v * p /\
  (forall k : Z, Z.of_nat (length items) <= k * p -> totalPages v <= k) /\
  (items = [] ->
   totalPages v = 0 /\
   Z.max 1 (totalPages v) = 1 /\
   navigateAll items p acts initialPage = 1 /\
   paginatedItems v = []).
Proof.
  intros Hp v. subst v. cbn [usePagination totalPages paginatedItems].
  pose proof (Math_ceil_div_bounds (Z.of_nat (length items)) p Hp) as Hb.
  fold (pageCount items p) in Hb.
  split; [exact Hb | split].
  - intros k Hk. nia.
  - intros ->.
    assert (H0 : pageCount (@nil A) p = 0) by (apply Math_ceil_div_0, Hp).
    split; [exact H0 | split; [rewrite H0; reflexivity | split]].
    + pose proof (navigateAll_range (@nil A) p acts initialPage) as Hr.
      rewrite H0 in Hr. unfold initialPage in *. lia.
    + apply Array_slice_nil.
Qed.

Lemma C3_total_pages_is_ceiling_witness :
  let v := usePagination [1; 2; 3; 4; 5; 6; 7; 8; 9; 10]%nat 9 2 in
  (totalPages v - 1) * 9 < 10 <= totalPages v * 9.
Proof.
  intros v.
  exact (proj1 (C3_total_pages_is_ceiling
                  [1; 2; 3; 4; 5; 6; 7; 8; 9; 10]%nat 9 2 [] ltac:(lia))).
Defined.

(** Re-rendering with another list never writes the page cell. *)
Lemma rerender_keeps_cell {A} (p : Z) (h : Hook A) (items : list A) :
  cell (step p h (Rerender items)) = cell h.
Proof. reflexivity. Qed.

(** C1.  The scenario of the claim, run on the code: ten snippets at
    page size 9, the user on page 2 (one item in the window); the tag
    filter then leaves three snippets.  The hook reports one page in
    total but still page 2 as the current page, and the window is empty:
    the current page is not brought back into [1, totalPages]. *)
Theorem C1_shrunk_list_keeps_stale_page :
  let h := run 9 (mount Fixtures.ten) [Call (GoToPage 2)] in
  let h' := step 9 h (Rerender Fixtures.three) in
  Filter.filteredSnippets Fixtures.ten "" "all" ["react"]
    = Completion.Normal Fixtures.three /\
  currentPage (render 9 h) = 2 /\
  length (paginatedItems (render 9 h)) = 1%nat /\
  totalPages (render 9 h') = 1 /\
  currentPage (render 9 h') = 2 /\
  paginatedItems (render 9 h') = [].
Proof. vm_compute. repeat split; reflexivity. Qed.

End PaginationClaims.

(** ** Strings *)

Section TextFacts.
Import Text.
Local Open Scope string_scope.

Lemma startsWith_spec (s p : string) :
  startsWith s p = true <-> exists post, s = p ++ post.
Proof.
  revert s. induction p as [|c p IH]; intros s; cbn [startsWith].
  - split; [intros _; now exists s | reflexivity].
  - destruct s as [|d s].
    + split; [discriminate | intros [post Hpost]; discriminate].
    + rewrite andb_true_iff, Ascii.eqb_eq, IH. split.
      * intros [-> [post ->]]. now exists post.
      * intros [post Hpost]. cbn in Hpost. injection Hpost as -> ->.
        split; [reflexivity | now exists post].
Qed.

Lemma includes_spec (s n : string) :
  includes s n = true <-> exists pre post, s = pre ++ n ++ post.
Proof.
  induction s as [|c s IH]; cbn [includes]; rewrite orb_true_iff.
  - split.
    + intros [H | H]; [| discriminate].
      apply startsWith_spec in H as [post ->]. now exists "", post.
    + intros [pre [post H]]. left. apply startsWith_spec.
      destruct pre; [now exists post | discriminate].
  - rewrite IH. split.
    + intros [H | [pre [post ->]]].
      * apply startsWith_spec in H as [post ->]. now exists "", post.
      * now exists (String c pre), post.
    + intros [pre [post H]]. destruct pre as [|d pre].
      * left. apply startsWith_spec. now exists post.
      * right. cbn in H. injection H as -> ->. now exists pre, post.
Qed.

Lemma toLowerCase_app (a b : string) :
  toLowerCase (a ++ b) = toLowerCase a ++ toLowerCase b.
Proof.
  induction a as [|c a IH]; [reflexivity |].
  change (String (lower_char c) (toLowerCase (a ++ b))
          = String (lower_char c) (toLowerCase a ++ toLowerCase b)).
  now f_equal.
Qed.

Lemma toLowerCase_split (s a b : string) :
  toLowerCase s = a ++ b ->
  exists a' b', s = a' ++ b' /\ toLowerCase a' = a /\ toLowerCase b' = b.
Proof.
  revert s. induction a as [|c a IH]; intros s Hs.
  - now exists "", s.
  - destruct s as [|d s]; [discriminate |].
    cbn in Hs. injection Hs as Hc Hs.
    destruct (IH s Hs) as (a' & b' & -> & Ha & Hb).
    exists (String d a'), b'. cbn. now rewrite Hc, Ha, Hb.
Qed.

(** The test the page performs is the case-insensitive substring test. *)
Lemma includes_lower_iff (hay needle : string) :
  includes (toLowerCase hay) (toLowerCase needle) = true
  <-> ci_substring needle hay.
Proof.
  rewrite includes_spec. unfold ci_substring. split.
  - intros (pre & post & H).
    apply toLowerCase_split in H as (pre' & rest & -> & Hpre & H).
    apply toLowerCase_split in H as (mid & post' & -> & Hmid & Hpost).
    now exists pre', mid, post'.
  - intros (pre & mid & post & -> & Hmid).
    exists (toLowerCase pre), (toLowerCase post).
    now rewrite !toLowerCase_app, Hmid.
Qed.

Lemma nonempty_true (s : string) : nonempty s = true <-> s <> "".
Proof. destruct s; cbn; split; congruence. Qed.







End TextFacts.

(** ** The filter chain *)

Section FilterFacts.
Import Completion Text Types Filter.

Lemma Array_filter_normal {A} (p : A -> Completion.t bool) (f : A -> bool)
  (l : list A) :
  (forall x, p x = Normal (f x)) ->
  Array_filter p l = Normal (List.filter f l).
Proof.
  intros Hp. induction l as [|x l IH]; cbn [Array_filter List.filter].
  - reflexivity.
  - rewrite Hp, IH. cbn [bind]. reflexivity.
Qed.

(** No callback of the chain throws. *)
Lemma searchPredicate_normal (q : string) (s : Snippet) :
  searchPredicate q s = Normal (searchHit q s).
Proof.
  unfold searchPredicate, searchHit. cbn [invoke bind].
  destruct (includes (toLowerCase (title s)) (toLowerCase q)); cbn.
  - reflexivity.
  - destruct (description s) as [d|]; cbn.
    + destruct (includes (toLowerCase d) (toLowerCase q)); reflexivity.
    + reflexivity.
Qed.

Lemma filteredSnippets_normal (l : list Snippet) (q lang : string)
  (sel : list string) :
  filteredSnippets l q lang sel =
  Normal (stage (0 <? Z.of_nat (length sel)) (tagHit sel)
            (stage (negb (String.eqb lang "all")) (languageHit lang)
               (stage (nonempty q) (searchHit q) l))).
Proof.
  unfold filteredSnippets, stage.
  destruct (nonempty q);
    [rewrite (Array_filter_normal _ _ _ (searchPredicate_normal q)) |];
    cbn [bind];
    (destruct (negb (String.eqb lang "all"));
     [rewrite (Array_filter_normal _ (languageHit lang)) by reflexivity |];
     cbn [bind];
     (destruct (0 <? Z.of_nat (length sel));
      [rewrite (Array_filter_normal _ (tagHit sel)) by reflexivity |];
      reflexivity)).
Qed.

Lemma selected_active (sel : list string) :
  (0 <? Z.of_nat (length sel)) = true <-> sel <> [].
Proof.
  destruct sel; cbn [length]; rewrite Z.ltb_lt; split; try congruence; lia.
Qed.

Lemma Array_includes_iff (xs : list string) (x : string) :
  Array_includes xs x = true <-> In x xs.
Proof.
  unfold Array_includes. rewrite existsb_exists. split.
  - intros [y [Hy Heq]]. apply String.eqb_eq in Heq. now subst.
  - intros Hx. exists x. split; [exact Hx | apply String.eqb_refl].
Qed.

Lemma tagHit_iff (sel : list string) (s : Snippet) :
  tagHit sel s = true <-> tagMatch sel s.
Proof.
  unfold tagHit, tagMatch, Array_some. rewrite existsb_exists.
  split; intros [t [Ht H]]; exists t; split; try exact Ht;
    now apply Array_includes_iff.
Qed.

Lemma languageHit_iff (lang : string) (s : Snippet) :
  languageHit lang s = true <-> categoryMatch lang s.
Proof. apply String.eqb_eq. Qed.

Lemma searchHit_iff (q : string) (s : Snippet) :
  searchHit q s = true <-> textMatch q s.
Proof.
  unfold searchHit, textMatch.
  rewrite !orb_true_iff, !includes_lower_iff.
  destruct (description s) as [d|].
  - rewrite includes_lower_iff. split.
    + intros [[H | H] | H]; [now left | right; left; now exists d | now right; right].
    + intros [H | [[d' [Hd H]] | H]];
        [now left; left | left; right; congruence | now right].
  - split.
    + intros [[H | H] | H]; [now left | discriminate | now right; right].
    + intros [H | [[d' [Hd H]] | H]];
        [now left; left | discriminate | now right].
Qed.

Lemma filter_sublist {A} (f : A -> bool) (l : list A) :
  sublist (List.filter f l) l.
Proof.
  induction l as [|x l IH]; cbn [List.filter].
  - constructor.
  - destruct (f x); [now apply sublist_skip | now apply sublist_cons].
Qed.

Lemma filter_comm {A} (f g : A -> bool) (l : list A) :
  List.filter f (List.filter g l) = List.filter g (List.filter f l).
Proof.
  induction l as [|x l IH]; [reflexivity |].
  cbn [List.filter].
  destruct (f x) eqn:Hf, (g x) eqn:Hg; cbn [List.filter];
    rewrite ?Hf, ?Hg, IH; reflexivity.
Qed.

Lemma stage_filter_comm {A} (active : bool) (f g : A -> bool) (l : list A) :
  stage active f (List.filter g l) = List.filter g (stage active f l).
Proof. destruct active; cbn [stage]; [apply filter_comm | reflexivity]. Qed.

(** With no criterion set the chain returns the list it was given. *)
Lemma filteredSnippets_no_criteria (l : list Snippet) :
  filteredSnippets l "" "all" [] = Normal l.
Proof. apply filteredSnippets_normal. Qed.


End FilterFacts.

Section FilterClaims.
Import Completion Text Types Filter.

Lemma stage_sublist {A} (active : bool) (f : A -> bool) (l : list A) :
  sublist (stage active f l) l.
Proof.
  destruct active; cbn [stage]; [apply filter_sublist | reflexivity].
Qed.

Lemma stage_In {A} (active : bool) (f : A -> bool) (l : list A) (x : A) :
  In x (stage active f l) <-> In x l /\ (active = true -> f x = true).
Proof.
  destruct active; cbn [stage].
  - rewrite filter_In. intuition.
  - intuition discriminate.
Qed.

Lemma sublist_In {A} (l1 l2 : list A) :
  sublist l1 l2 -> forall x, In x l1 -> In x l2.
Proof.
  induction 1 as [|y l1 l2 _ IH|y l1 l2 _ IH]; intros x Hx.
  - exact Hx.
  - destruct Hx as [-> | Hx]; [now left | right; now apply IH].
  - right. now apply IH.
Qed.

(** Membership in the result of the whole chain. *)
Lemma filteredSnippets_In (l : list Snippet) (q lang : string)
  (sel : list string) (r : list Snippet) :
  filteredSnippets l q lang sel = Normal r ->
  forall s,
    In s r <->
    In s l /\ (q <> "" -> textMatch q s)
           /\ (lang <> "all" -> categoryMatch lang s)
           /\ (sel <> [] -> tagMatch sel s).
Proof.
  rewrite filteredSnippets_normal. intros [= <-] s.
  rewrite !stage_In, selected_active, negb_true_iff, nonempty_true,
    tagHit_iff, languageHit_iff, searchHit_iff.
  assert (Hall : String.eqb lang "all" = false <-> lang <> "all")
    by apply String.eqb_neq.
  rewrite Hall. tauto.
Qed.

(** C6.  For every list and all criteria the chain returns a list that
    is a subsequence of the source: its elements occur in the source,
    in the same relative order. *)
Theorem C6_filter_is_subsequence (l : list Snippet) (q lang : string)
  (sel : list string) :
  exists r,
    filteredSnippets l q lang sel = Normal r /\
    sublist r l /\
    (forall s, In s r -> In s l).
Proof.
  eexists. split; [apply filteredSnippets_normal |].
  assert (Hsub : sublist
            (stage (0 <? Z.of_nat (length sel)) (tagHit sel)
               (stage (negb (String.eqb lang "all")) (languageHit lang)
                  (stage (nonempty q) (searchHit q) l))) l).
  { etransitivity; [apply stage_sublist |].
    etransitivity; apply stage_sublist. }
  split; [exact Hsub | apply sublist_In, Hsub].
Qed.

(** C4.  The tag criterion.  With no tag selected (and no other
    criterion) every item of the list is kept.  With a non-empty
    selection the chain keeps exactly the items, in order, that carry
    at least one of the selected tags: of the whole list when no other
    criterion is set, and of what the other criteria leave in general.
    An item without tags carries none of them, so it is dropped by
    every non-empty selection.  The chain returns normally in each
    case. *)
Theorem C4_tag_filter_is_any_of (l : list Snippet) (q lang : string)
  (sel : list string) :
  exists keep : Snippet -> bool,
    (forall s, keep s = true <-> exists t, In t sel /\ In t (tags s)) /\
    (forall s, tags s = [] -> keep s = false) /\
    filteredSnippets l "" "all" [] = Normal l /\
    (sel <> [] ->
     filteredSnippets l "" "all" sel = Normal (List.filter keep l)) /\
    (sel <> [] ->
     exists r0,
       filteredSnippets l q lang [] = Normal r0 /\
       filteredSnippets l q lang sel = Normal (List.filter keep r0)).
Proof.
  exists (tagHit sel).
  split; [intros s; apply tagHit_iff |].
  split.
  { intros s Hs. apply not_true_iff_false. rewrite tagHit_iff.
    intros (t & _ & Ht). now rewrite Hs in Ht. }
  split; [apply filteredSnippets_no_criteria |].
  split; intros Hsel; apply selected_active in Hsel.
  - rewrite filteredSnippets_normal, Hsel. reflexivity.
  - eexists. split; [apply filteredSnippets_normal |].
    rewrite filteredSnippets_normal, Hsel. reflexivity.
Qed.

Lemma C4_tag_filter_is_any_of_witness :
  exists keep : Snippet -> bool,
    (forall s, keep s = true <->
               exists t, In t ["react"; "hooks"] /\ In t (tags s)) /\
    filteredSnippets Fixtures.ten "" "all" ["react"; "hooks"]
      = Normal (List.filter keep Fixtures.ten).
Proof.
  destruct (C4_tag_filter_is_any_of Fixtures.ten "" "all" ["react"; "hooks"])
    as (keep & Hkeep & _ & _ & Hexact & _).
  exists keep. split; [exact Hkeep |].
  apply Hexact. discriminate.
Defined.



(** C10.  The chain returns normally on every list and all criteria,
    whether or not descriptions are present; for an item without a
    description the search callback returns normally too, and its
    answer is the answer of the title and the code alone, so such an
    item is kept by a search text that occurs in its title or code. *)
Theorem C10_missing_description_is_harmless (l : list Snippet)
  (q lang : string) (sel : list string) :
  (exists r, filteredSnippets l q lang sel = Normal r) /\
  (forall s,
     description s = None ->
     searchPredicate q s =
       Normal (includes (toLowerCase (title s)) (toLowerCase q)
               || includes (toLowerCase (code s)) (toLowerCase q)) /\
     (ci_substring q (title s) \/ ci_substring q (code s) ->
      q <> "" ->
      filteredSnippets [s] q "all" [] = Normal [s])).
Proof.
  split; [eexists; apply filteredSnippets_normal |].
  intros s Hd.
  assert (Hhit : searchHit q s =
                 includes (toLowerCase (title s)) (toLowerCase q)
                 || includes (toLowerCase (code s)) (toLowerCase q)).
  { unfold searchHit. rewrite Hd. now rewrite orb_false_r. }
  split.
  - rewrite searchPredicate_normal. now rewrite Hhit.
  - intros Hci Hq. rewrite filteredSnippets_normal.
    apply nonempty_true in Hq. rewrite Hq. cbn [stage String.eqb negb].
    change (0 <? Z.of_nat (length (@nil string))) with false.
    cbn [stage List.filter].
    replace (searchHit q s) with true; [reflexivity |].
    symmetry. rewrite Hhit, orb_true_iff, !includes_lower_iff. exact Hci.
Qed.

Lemma C10_missing_description_is_harmless_witness :
  searchPredicate "foo" Fixtures.untitled = Normal true /\
  filteredSnippets [Fixtures.untitled] "foo" "all" [] = Normal [Fixtures.untitled].
Proof.
  destruct (C10_missing_description_is_harmless [] "foo" "all" [])
    as [_ H].
  destruct (H Fixtures.untitled eq_refl) as [Hp Hkeep].
  split.
  - exact Hp.
  - apply Hkeep.
    + left. exists "", "Foo", " util". split; reflexivity.
    + discriminate.
Defined.

End FilterClaims.

(** ** Mutations *)

Section PageClaims.
Import Completion Types Page.

(** Evaluation of a handler on a world given by its components. *)
Ltac run_handler :=
  cbv beta iota zeta delta
    [mutate handleSubmit handleDelete onCreateSuccess onEditSuccess
     fetchSnippets_detached fetchSnippets_begin fetchSnippets_resume
     deliver await settle try_finally try_catch seqE bindE
     toast_success toast_error setSnippets setIsLoading setIsSubmitting
     closeDialog closeEdit modify emit ret exec result
     fst snd ui log pending snippets isLoading isDialogOpen
     isEditDialogOpen isSubmitting negb bind].

Lemma refetched_intro (w w' : World) (evs : list Event) :
  log w' = log w ++ evs -> In (Request ApiGetAll) evs -> refetched w w'.
Proof. intros Hlog Hin. exists evs. now split. Qed.

Lemma refetched_inv (w w' : World) (evs : list Event) :
  log w' = log w ++ evs -> refetched w w' -> In (Request ApiGetAll) evs.
Proof.
  intros Hlog (evs' & Hlog' & Hin).
  rewrite Hlog in Hlog'. apply app_inv_head in Hlog'. now subst.
Qed.

(** C8.  A delete the collaborator rejects: the handler returns
    normally, no state cell of the page changes (the list keeps every
    item), and the only effects are the request and one error toast. *)
Theorem C8_rejected_delete_changes_nothing (id : Z) (e : JsError) (w : World) :
  result (handleDelete true (Throw e) id) w = Normal tt /\
  ui (exec (handleDelete true (Throw e) id) w) = ui w /\
  snippets (ui (exec (handleDelete true (Throw e) id) w)) = snippets (ui w) /\
  log (exec (handleDelete true (Throw e) id) w) =
    log w ++ [Request (ApiDelete id);
              Toast ToastError "Failed to delete snippet"].
Proof.
  destruct w as [u lg n]. run_handler. repeat split.
  now rewrite <- app_assoc.
Qed.

(** C2, as the code has it.  After a successful create or update the
    page requests the full list again and, when that request succeeds,
    shows exactly the list received.  After a successful delete it makes
    no list request: it removes the items with the deleted id from the
    list it already holds. *)
Theorem C2_refetch_after_save_local_patch_after_delete (m : Mutation)
  (echo : Snippet) (listReply : Completion.t (list Snippet)) (w : World) :
  pending w = 0%nat ->
  let w' := exec (mutate m (Normal echo) listReply) w in
  match m with
  | Create _ | Update _ _ =>
      refetched w w' /\
      (forall data, listReply = Normal data -> snippets (ui w') = data)
  | Delete id =>
      ~ refetched w w' /\
      snippets (ui w') =
        List.filter (fun s => negb (Types.id s =? id)) (snippets (ui w))
  end.
Proof.
  destruct w as [[sn il dg ed sb] lg n]. cbn [pending]. intros ->.
  destruct m as [formData | s formData | id].
  - split.
    + destruct listReply as [data | err]; run_handler;
        (eapply refetched_intro;
         [rewrite <- !app_assoc; reflexivity | cbn; tauto]).
    + intros data ->. run_handler. reflexivity.
  - split.
    + destruct listReply as [data | err]; run_handler;
        (eapply refetched_intro;
         [rewrite <- !app_assoc; reflexivity | cbn; tauto]).
    + intros data ->. run_handler. reflexivity.
  - run_handler. split.
    + intros Hre.
      eapply (refetched_inv _ _
                [Request (ApiDelete id); Toast ToastSuccess "Snippet deleted"])
        in Hre.
      * cbn in Hre. intuition discriminate.
      * now rewrite <- app_assoc.
    + reflexivity.
Qed.

Lemma C2_refetch_after_save_local_patch_after_delete_witness :
  let w := Fixtures.world Fixtures.three in
  let w' := exec (mutate (Create Fixtures.form)
                    (Normal Fixtures.foobar) (Normal Fixtures.ten)) w in
  refetched w w' /\
  (forall data, Normal Fixtures.ten = Normal data -> snippets (ui w') = data).
Proof.
  exact (C2_refetch_after_save_local_patch_after_delete
           (Create Fixtures.form) Fixtures.foobar (Normal Fixtures.ten)
           (Fixtures.world Fixtures.three) eq_refl).
Defined.

(** C2 as stated fails for delete: the server answers the delete of
    snippet 4 with success and would return an empty list, yet no list
    request is made and the page shows its own list minus snippet 4. *)
Lemma C2_delete_does_not_refetch :
  let w := Fixtures.world Fixtures.three in
  let w' := exec (mutate (Delete 4) (Normal Fixtures.foobar) (Normal [])) w in
  ~ refetched w w' /\
  log w' = [Request (ApiDelete 4); Toast ToastSuccess "Snippet deleted"] /\
  map Types.id (snippets (ui w')) = [1; 8].
Proof.
  cbv zeta. split; [| split; vm_compute; reflexivity].
  intros Hre.
  eapply (refetched_inv _ _
            [Request (ApiDelete 4); Toast ToastSuccess "Snippet deleted"])
    in Hre.
  - cbn in Hre. intuition discriminate.
  - vm_compute. reflexivity.
Qed.

End PageClaims.

(** ** Debounce *)

Section DebounceFacts.
Import Debounce.
Local Open Scope N_scope.
Context {T : Type} `{EqDecision T}.

Local Abbreviation State := (Debounce.State T).
Local Abbreviation Event := (Debounce.Event T).
Local Abbreviation Timer := (Debounce.Timer T).


Lemma timeoutOf_small (d : N) : d < 2 ^ 31 -> timeoutOf d = d.
Proof.
  intros Hd. unfold timeoutOf. cbv zeta.
  rewrite N.mod_small by (change (2 ^ 32) with 4294967296;
                          change (2 ^ 31) with 2147483648 in Hd; lia).
  destruct (N.ltb_spec d (2 ^ 31)); [reflexivity | lia].
Qed.


(** The cleanup removes the one timer there can be. *)
Lemma cleanup_clears (s : State) : consistent s -> timers (cleanup s) = [].
Proof.
  unfold consistent, cleanup, clearTimeout. cbn [timers].
  destruct (timers s) as [|t [|u r]]; [reflexivity | | contradiction].
  intros (_ & Hid & _). cbn [List.filter].
  rewrite Hid, N.eqb_refl. reflexivity.
Qed.

Lemma fire_idle (s : State) (now : N) :
  timers s = [] ->
  fire s now =
  mkState (value s) (delay s) (debouncedValue s) (handler s) []
    (nextId s) (emitted s) now (mounted s).
Proof. intros Ht. unfold fire. rewrite Ht. reflexivity. Qed.

Lemma fire_waiting (s : State) (now : N) (t : Timer) :
  timers s = [t] -> now < due t ->
  fire s now =
  mkState (value s) (delay s) (debouncedValue s) (handler s) [t]
    (nextId s) (emitted s) now (mounted s).
Proof.
  intros Ht Hnow. unfold fire. rewrite Ht. cbn [List.filter].
  destruct (N.leb_spec (due t) now); [lia | reflexivity].
Qed.

Lemma fire_due (s : State) (now : N) (t : Timer) :
  timers s = [t] -> due t <= now ->
  fire s now =
  mkState (value s) (delay s)
    (if mounted s then payload t else debouncedValue s) (handler s) []
    (nextId s) (emitted s ++ [payload t]) now (mounted s).
Proof.
  intros Ht Hnow. unfold fire. rewrite Ht. cbn [List.filter].
  destruct (N.leb_spec (due t) now); [reflexivity | lia].
Qed.

Lemma mount_consistent (v : T) (d t0 : N) : consistent (mount v d t0).
Proof. unfold consistent. cbn. repeat split. lia. Qed.

Lemma step_consistent (s : State) (e : Event) :
  consistent s -> consistent (step s e).
Proof.
  intros Hs. destruct e as [v d | dt |]; cbn [step].
  - destruct (mounted s) eqn:Hm; [| exact Hs].
    destruct (decide (v = value s /\ d = delay s)); [exact Hs |].
    pose proof (cleanup_clears s Hs) as Hc.
    unfold consistent, effect, setTimeout. cbn [timers]. rewrite Hc.
    cbn. repeat split; [exact Hm | lia].
  - unfold consistent in Hs.
    destruct (timers s) as [|t [|u r]] eqn:Ht; [| | contradiction].
    + rewrite fire_idle by exact Ht. exact Hs.
    + destruct Hs as (Hm & Hid & Hp & Hdue).
      destruct (N.le_gt_cases (due t) (clock s + dt)) as [Hnow | Hnow].
      * rewrite (fire_due s _ t) by assumption.
        unfold consistent. cbn. intros _. rewrite Hm. exact Hp.
      * rewrite (fire_waiting s _ t) by assumption.
        unfold consistent. cbn. repeat split; try assumption. lia.
  - destruct (mounted s) eqn:Hm; [| exact Hs].
    unfold consistent, unmount. cbn [timers mounted].
    rewrite (cleanup_clears s Hs). discriminate.
Qed.

Lemma run_consistent (es : list Event) :
  forall s, consistent s -> consistent (run s es).
Proof.
  induction es as [|e es IH]; intros s Hs; [exact Hs |].
  apply IH, step_consistent, Hs.
Qed.






(** While a single pending timer is not due, time passing changes
    neither the output nor what was emitted. *)
Lemma waiting_quiet (t : Timer) (quiet : list Event) :
  forallb is_elapse quiet = true ->
  forall s : State,
    timers s = [t] ->
    clock s + elapsed quiet < due t ->
    emitted (run s quiet) = emitted s /\
    debouncedValue (run s quiet) = debouncedValue s.
Proof.
  induction quiet as [|e quiet IH]; intros Hq s Ht Hc; [now split |].
  cbn [forallb] in Hq. apply andb_true_iff in Hq as [He Hq].
  destruct e as [| dt |]; try discriminate.
  change (run s (Elapse dt :: quiet)) with (run (step s (Elapse dt)) quiet).
  cbn [elapsed] in Hc. cbn [step].
  rewrite (fire_waiting s _ t) by (assumption || lia).
  match goal with
  | |- context [run ?s' quiet] =>
      destruct (IH Hq s') as [Hem Hout];
      [reflexivity | cbn [clock]; lia | now rewrite Hem, Hout]
  end.
Qed.

End DebounceFacts.

Section DebounceClaims.
Import Debounce.
Local Open Scope N_scope.
Context {T : Type} `{EqDecision T}.


End DebounceClaims.


(** ** The definitions on small inputs *)

Section Examples.
Import Completion.

Example window_last_page :
  Pagination.window [1; 2; 3; 4; 5; 6; 7; 8; 9; 10]%nat 9 2 = [10%nat].
Proof. reflexivity. Qed.

Example goToPage_too_far : Pagination.goToPage 2 7 = 2.
Proof. reflexivity. Qed.

Example goToPage_on_empty_list :
  Pagination.navigate (@nil nat) 9 1 (Pagination.GoToPage 3) = 1.
Proof. reflexivity. Qed.

Example tags_any_of :
  Filter.filteredSnippets
    [Fixtures.sample 1 "a" None ["vue"];
     Fixtures.sample 2 "b" None ["hooks"; "testing"]]
    "" "all" ["react"; "hooks"]
  = Normal [Fixtures.sample 2 "b" None ["hooks"; "testing"]].
Proof. reflexivity. Qed.

Example parseTags_form : Page.parseTags " react, hooks ,," = ["react"; "hooks"].
Proof. reflexivity. Qed.

Example fetch_rejected :
  Page.exec (Page.fetchSnippets (Throw RequestFailed))
    (Fixtures.world Fixtures.three)
  = {| Page.ui := Page.ui (Fixtures.world Fixtures.three);
       Page.log := [Page.Request Page.ApiGetAll;
                    Page.Toast Page.ToastError "Failed to load snippets"];
       Page.pending := 0 |}.
Proof. reflexivity. Qed.

Example save_rejected :
  Page.log (Page.exec (Page.mutate (Page.Create Fixtures.form)
                         (Throw RequestFailed) (Normal []))
              (Fixtures.world Fixtures.three))
  = [Page.Request (Page.ApiCreate (Page.payload Fixtures.form));
     Page.Toast Page.ToastError "Failed to save snippet"].
Proof. reflexivity. Qed.

End Examples.

(** ** More on the pagination hook *)

Section PaginationWindows.
Import Js Pagination Controls.

Lemma window_take_drop {A} (items : list A) (p page : Z) :
  0 < p -> 1 <= page ->
  window items p page =
  take (Z.to_nat p) (drop (Z.to_nat ((page - 1) * p)) items).
Proof.
  intros Hp Hpage. unfold window, Array_slice, relative_index.
  set (len := Z.of_nat (length items)).
  set (start := (page - 1) * p).
  assert (Hstart : 0 <= start) by (subst start; nia).
  destruct (Z.ltb_spec start 0); [lia |].
  destruct (Z.ltb_spec (start + p) 0); [lia |].
  destruct (Z_le_gt_dec start len) as [Hin | Hout].
  - rewrite (Z.min_l start len) by lia.
    destruct (Z_le_gt_dec (start + p) len) as [Hfull | Hlast].
    + rewrite (Z.min_l (start + p) len) by lia. f_equal. lia.
    + rewrite (Z.min_r (start + p) len) by lia.
      rewrite !take_ge; [reflexivity | |]; rewrite length_drop; lia.
  - rewrite (Z.min_r start len), (Z.min_r (start + p) len) by lia.
    rewrite Z.sub_diag. cbn [Z.to_nat take].
    rewrite (drop_ge items (Z.to_nat start)) by lia.
    now rewrite take_nil.
Qed.

Lemma chunks_concat {A} (n k : nat) :
  forall l : list A,
    (length l <= k * n)%nat ->
    concat (map (fun i => take n (drop (i * n) l)) (seq 0 k)) = l.
Proof.
  induction k as [|k IH]; intros l Hl.
  - destruct l; [reflexivity | cbn in Hl; lia].
  - change (seq 0 (S k)) with (0%nat :: seq 1 k).
    rewrite <- seq_shift, map_cons, map_map, concat_cons.
    change (take n (drop (0 * n) l)) with (take n l).
    transitivity (take n l ++ drop n l); [| apply take_drop]. f_equal.
    assert (Hrest : (length (drop n l) <= k * n)%nat)
      by (rewrite length_drop; lia).
    etransitivity; [| exact (IH (drop n l) Hrest)].
    f_equal. apply map_ext. intros i. rewrite drop_drop.
    do 2 f_equal.
Qed.

(** X1.  Whatever the current page is, even one out of range, the
    window holds at most [itemsPerPage] items. *)
Theorem X1_window_at_most_page_size {A} (items : list A) (p page : Z) :
  0 < p ->
  Z.of_nat (length (paginatedItems (usePagination items p page))) <= p.
Proof.
  intros Hp. cbn [usePagination paginatedItems].
  unfold window, Array_slice, relative_index.
  rewrite length_take.
  set (len := Z.of_nat (length items)).
  destruct (Z.ltb_spec ((page - 1) * p) 0);
    destruct (Z.ltb_spec ((page - 1) * p + p) 0); lia.
Qed.

Lemma X1_window_at_most_page_size_witness :
  Z.of_nat (length (paginatedItems
                      (usePagination [1; 2; 3; 4; 5]%nat 2 (-1)))) <= 2.
Proof. apply X1_window_at_most_page_size. lia. Defined.

(** X2.  The windows of the pages 1 to [totalPages], the pages the
    numbered buttons lead to, put one after the other give the list
    back: every item is on exactly one page, in order. *)
Theorem X2_windows_partition_the_list {A} (items : list A) (p : Z) :
  0 < p ->
  concat (map (fun page => paginatedItems (usePagination items p page))
            (pageNumbers (totalPages (usePagination items p initialPage))))
  = items.
Proof.
  intros Hp. cbn [usePagination paginatedItems totalPages].
  unfold pageNumbers. rewrite map_map.
  pose proof (Math_ceil_div_bounds (Z.of_nat (length items)) p Hp) as Hb.
  fold (pageCount items p) in Hb.
  rewrite <- (chunks_concat (Z.to_nat p) (Z.to_nat (pageCount items p)) items)
    at 2 by nia.
  f_equal. apply map_ext. intros i.
  rewrite window_take_drop by lia. do 2 f_equal. nia.
Qed.

Lemma X2_windows_partition_the_list_witness :
  concat (map (fun page =>
                 paginatedItems (usePagination [1; 2; 3; 4; 5]%nat 2 page))
            (pageNumbers
               (totalPages (usePagination [1; 2; 3; 4; 5]%nat 2 initialPage))))
  = [1; 2; 3; 4; 5]%nat.
Proof. apply X2_windows_partition_the_list. lia. Defined.

(** X3.  A page within [1, totalPages] never has an empty window: it
    holds [itemsPerPage] items, or what is left of the list on the last
    page. *)
Theorem X3_page_in_range_has_items {A} (items : list A) (p page : Z) :
  0 < p ->
  let v := usePagination items p page in
  1 <= page <= totalPages v ->
  paginatedItems v <> [] /\
  Z.of_nat (length (paginatedItems v)) =
    Z.min p (Z.of_nat (length items) - (page - 1) * p).
Proof.
  intros Hp v. subst v. cbn [usePagination paginatedItems totalPages].
  intros Hpage.
  pose proof (Math_ceil_div_bounds (Z.of_nat (length items)) p Hp) as Hb.
  fold (pageCount items p) in Hb.
  assert (Hlen : Z.of_nat (length (window items p page)) =
                 Z.min p (Z.of_nat (length items) - (page - 1) * p)).
  { rewrite window_take_drop by lia.
    rewrite length_take, length_drop. nia. }
  split; [| exact Hlen].
  intros Hnil. rewrite Hnil in Hlen. cbn [length] in Hlen. nia.
Qed.

Lemma X3_page_in_range_has_items_witness :
  paginatedItems (usePagination [1; 2; 3; 4; 5]%nat 2 3) <> [].
Proof.
  refine (proj1 (X3_page_in_range_has_items [1; 2; 3; 4; 5]%nat 2 3 _ _)).
  - lia.
  - vm_compute. split; discriminate.
Defined.

(** X4.  When the page is in range, the two flags tell exactly whether
    [nextPage] and [prevPage] move: with the flag set the page moves by
    one, without it the call leaves the page where it is. *)
Theorem X4_flags_tell_whether_navigation_moves {A} (items : list A)
  (p page : Z) :
  let v := usePagination items p page in
  1 <= page <= Z.max 1 (totalPages v) ->
  nextPage (totalPages v) (currentPage v) =
    (if hasNextPage v then page + 1 else page) /\
  prevPage (totalPages v) (currentPage v) =
    (if hasPrevPage v then page - 1 else page).
Proof.
  intros v. subst v.
  cbn [usePagination totalPages currentPage hasNextPage hasPrevPage].
  intros Hpage. unfold nextPage, prevPage, goToPage, Math_max, Math_min.
  destruct (Z.ltb_spec page (pageCount items p));
    destruct (Z.ltb_spec 1 page); lia.
Qed.

Lemma X4_flags_tell_whether_navigation_moves_witness :
  let v := usePagination [1; 2; 3; 4; 5]%nat 2 3 in
  nextPage (totalPages v) (currentPage v) = 3 /\
  prevPage (totalPages v) (currentPage v) = 2.
Proof.
  refine (X4_flags_tell_whether_navigation_moves [1; 2; 3; 4; 5]%nat 2 3 _).
  vm_compute. split; discriminate.
Defined.

Lemma Math_ceil_div_mono (n m p : Z) :
  0 < p -> n <= m -> Math_ceil_div n p <= Math_ceil_div m p.
Proof.
  intros Hp Hnm.
  pose proof (Math_ceil_div_bounds n p Hp).
  pose proof (Math_ceil_div_bounds m p Hp). nia.
Qed.

(** X5.  A current page within [1, max 1 totalPages] stays there under
    every navigation call, and under every re-render with a list that
    is not shorter than the one before. *)
Theorem X5_range_kept_unless_list_shrinks {A} (p : Z) (h : Hook A)
  (s : Step A) :
  0 < p ->
  1 <= cell h <= Z.max 1 (pageCount (props h) p) ->
  match s with
  | Rerender items => (length (props h) <= length items)%nat
  | Call _ => True
  end ->
  let h' := step p h s in
  1 <= cell h' <= Z.max 1 (pageCount (props h') p).
Proof.
  intros Hp Hcell Hs. destruct s as [items | a]; cbn [step cell props].
  - assert (pageCount (props h) p <= pageCount items p)
      by (apply Math_ceil_div_mono; lia).
    lia.
  - apply navigate_range.
Qed.

Lemma X5_range_kept_unless_list_shrinks_witness :
  let h' := step 2 (mkHook [1; 2; 3]%nat 2) (Rerender [1; 2; 3; 4]%nat) in
  1 <= cell h' <= Z.max 1 (pageCount (props h') 2).
Proof.
  refine (X5_range_kept_unless_list_shrinks 2 (mkHook [1; 2; 3]%nat 2)
            (Rerender [1; 2; 3; 4]%nat) _ _ _).
  - lia.
  - vm_compute. split; discriminate.
  - cbn. lia.
Defined.

End PaginationWindows.

(** ** More on the filter chain *)

Section FilterAlgebra.
Import Completion Text Types Filter.

Lemma filter_all {A} (f : A -> bool) (l : list A) :
  (forall x, In x l -> f x = true) -> List.filter f l = l.
Proof.
  induction l as [|x l IH]; intros Hall; cbn [List.filter].
  - reflexivity.
  - rewrite (Hall x) by now left.
    f_equal. apply IH. intros y Hy. apply Hall. now right.
Qed.

Lemma stage_all {A} (active : bool) (f : A -> bool) (l : list A) :
  (forall x, In x l -> active = true -> f x = true) -> stage active f l = l.
Proof.
  intros Hall. destruct active; cbn [stage]; [| reflexivity].
  apply filter_all. auto.
Qed.

Lemma stage_app {A} (active : bool) (f : A -> bool) (l1 l2 : list A) :
  stage active f (l1 ++ l2) = stage active f l1 ++ stage active f l2.
Proof. destruct active; cbn [stage]; [apply List.filter_app | reflexivity]. Qed.

Lemma filter_sublist_impl {A} (f g : A -> bool) (l : list A) :
  (forall x, In x l -> f x = true -> g x = true) ->
  sublist (List.filter f l) (List.filter g l).
Proof.
  induction l as [|x l IH]; intros Himp; cbn [List.filter].
  - constructor.
  - assert (IH' : sublist (List.filter f l) (List.filter g l))
      by (apply IH; intros y Hy; apply Himp; now right).
    destruct (f x) eqn:Hf.
    + rewrite (Himp x) by (trivial; now left). now apply sublist_skip.
    + destruct (g x); [now apply sublist_cons | exact IH'].
Qed.

(** X6.  Filtering is idempotent: the chain applied with the same
    criteria to its own result returns that result unchanged. *)
Theorem X6_filter_is_idempotent (l r : list Snippet) (q lang : string)
  (sel : list string) :
  filteredSnippets l q lang sel = Normal r ->
  filteredSnippets r q lang sel = Normal r.
Proof.
  intros Hr.
  pose proof (filteredSnippets_In _ _ _ _ _ Hr) as Hin.
  rewrite filteredSnippets_normal. f_equal.
  assert (Hs : stage (nonempty q) (searchHit q) r = r).
  { apply stage_all. intros s Hsr Hq.
    apply searchHit_iff, (Hin s); [exact Hsr | now apply nonempty_true]. }
  assert (Hl : stage (negb (String.eqb lang "all")) (languageHit lang) r = r).
  { apply stage_all. intros s Hsr Hq.
    apply languageHit_iff, (Hin s); [exact Hsr |].
    apply negb_true_iff in Hq. now apply String.eqb_neq. }
  assert (Ht : stage (0 <? Z.of_nat (length sel)) (tagHit sel) r = r).
  { apply stage_all. intros s Hsr Hq.
    apply tagHit_iff, (Hin s); [exact Hsr | now apply selected_active]. }
  now rewrite Hs, Hl, Ht.
Qed.

Lemma X6_filter_is_idempotent_witness :
  filteredSnippets Fixtures.three "" "all" ["react"] = Normal Fixtures.three.
Proof.
  apply (X6_filter_is_idempotent Fixtures.ten). reflexivity.
Defined.

(** X7.  Each item is judged on its own: the result for two lists put
    one after the other is the two results put one after the other. *)
Theorem X7_filter_distributes_over_append (l1 l2 : list Snippet)
  (q lang : string) (sel : list string) :
  exists r1 r2,
    filteredSnippets l1 q lang sel = Normal r1 /\
    filteredSnippets l2 q lang sel = Normal r2 /\
    filteredSnippets (l1 ++ l2) q lang sel = Normal (r1 ++ r2).
Proof.
  eexists _, _.
  split; [apply filteredSnippets_normal |].
  split; [apply filteredSnippets_normal |].
  rewrite filteredSnippets_normal. now rewrite !stage_app.
Qed.

(** X8.  Selecting tags first narrows the result, then only widens it:
    the result for any selection is a subsequence of the result for no
    selection, and the result for a non-empty selection is a
    subsequence of the result for every selection that contains it. *)
Theorem X8_more_tags_never_fewer_items (l : list Snippet) (q lang : string)
  (sel sel' : list string) :
  exists r0 r r',
    filteredSnippets l q lang [] = Normal r0 /\
    filteredSnippets l q lang sel = Normal r /\
    filteredSnippets l q lang sel' = Normal r' /\
    sublist r r0 /\
    (sel <> [] -> (forall t, In t sel -> In t sel') -> sublist r r').
Proof.
  eexists _, _, _.
  split; [apply filteredSnippets_normal |].
  split; [apply filteredSnippets_normal |].
  split; [apply filteredSnippets_normal |].
  set (base := stage (negb (String.eqb lang "all")) (languageHit lang)
                 (stage (nonempty q) (searchHit q) l)).
  split.
  - change (0 <? Z.of_nat (length (@nil string))) with false.
    cbn [stage]. apply stage_sublist.
  - intros Hsel Hsub.
    assert (Hsel' : sel' <> []).
    { destruct sel as [|t sel]; [congruence |].
      intros ->. apply (Hsub t). now left. }
    apply selected_active in Hsel, Hsel'. rewrite Hsel, Hsel'.
    cbn [stage]. apply filter_sublist_impl.
    intros s _ Hhit. apply tagHit_iff in Hhit as (t & Ht & Hts).
    apply tagHit_iff. exists t. split; [now apply Hsub | exact Hts].
Qed.

Lemma X8_more_tags_never_fewer_items_witness :
  exists r r',
    filteredSnippets Fixtures.ten "" "all" ["hooks"] = Normal r /\
    filteredSnippets Fixtures.ten "" "all" ["hooks"; "vue"] = Normal r' /\
    sublist r r'.
Proof.
  destruct (X8_more_tags_never_fewer_items Fixtures.ten "" "all"
              ["hooks"] ["hooks"; "vue"])
    as (r0 & r & r' & _ & Hr & Hr' & _ & Hsub).
  exists r, r'. split; [exact Hr | split; [exact Hr' |]].
  apply Hsub; [discriminate |].
  intros t [<- | []]. now left.
Defined.

(** X9.  The category criterion.  With category [all] (and no other
    criterion) every item of the list is kept.  With any other category
    the chain keeps exactly the items, in order, whose language is that
    category, letter for letter: of the whole list when no other
    criterion is set, and of what the other criteria leave in
    general. *)
Theorem X9_category_filter_is_exact (l : list Snippet) (q lang : string)
  (sel : list string) :
  exists keep : Snippet -> bool,
    (forall s, keep s = true <-> language s = lang) /\
    filteredSnippets l "" "all" [] = Normal l /\
    (lang <> "all" ->
     filteredSnippets l "" lang [] = Normal (List.filter keep l)) /\
    (lang <> "all" ->
     exists r0,
       filteredSnippets l q "all" sel = Normal r0 /\
       filteredSnippets l q lang sel = Normal (List.filter keep r0)).
Proof.
  exists (languageHit lang).
  split; [intros s; apply languageHit_iff |].
  split; [apply filteredSnippets_no_criteria |].
  split; intros Hlang; apply String.eqb_neq in Hlang.
  - rewrite filteredSnippets_normal, Hlang. reflexivity.
  - eexists. split; [apply filteredSnippets_normal |].
    rewrite filteredSnippets_normal, Hlang.
    cbn [negb String.eqb stage]. f_equal.
    now rewrite stage_filter_comm.
Qed.

Lemma X9_category_filter_is_exact_witness :
  exists keep : Snippet -> bool,
    (forall s, keep s = true <-> language s = "TypeScript") /\
    filteredSnippets Fixtures.ten "" "TypeScript" []
      = Normal (List.filter keep Fixtures.ten).
Proof.
  destruct (X9_category_filter_is_exact Fixtures.ten "" "TypeScript" [])
    as (keep & Hkeep & _ & Hexact & _).
  exists keep. split; [exact Hkeep |].
  apply Hexact. discriminate.
Defined.

End FilterAlgebra.

(** ** Tags: the filter options, the selection and the form field *)

Section TagFacts.
Import Text Types Filter Controls.
Local Open Scope string_scope.

Lemma Set_add_In (tags : list string) (tag x : string) :
  In x (Set_add tags tag) <-> In x tags \/ x = tag.
Proof.
  unfold Set_add. destruct (Array_includes tags tag) eqn:Hinc.
  - apply Array_includes_iff in Hinc. split; [now left |].
    intros [H | ->]; assumption.
  - rewrite in_app_iff. cbn. intuition.
Qed.

Lemma Set_add_NoDup (tags : list string) (tag : string) :
  List.NoDup tags -> List.NoDup (Set_add tags tag).
Proof.
  intros Hnd. unfold Set_add.
  destruct (Array_includes tags tag) eqn:Hinc; [exact Hnd |].
  apply List.NoDup_app; [exact Hnd | repeat constructor; intros [] |].
  intros x Hx [<- | []].
  apply Array_includes_iff in Hx. congruence.
Qed.

Lemma fold_Set_add (ts : list string) :
  forall acc,
    List.NoDup acc ->
    List.NoDup (fold_left Set_add ts acc) /\
    forall x, In x (fold_left Set_add ts acc) <-> In x acc \/ In x ts.
Proof.
  induction ts as [|t ts IH]; intros acc Hnd; cbn [fold_left].
  - split; [exact Hnd | intros x; cbn; tauto].
  - destruct (IH (Set_add acc t) (Set_add_NoDup _ _ Hnd)) as [Hnd' Hin].
    split; [exact Hnd' |].
    intros x. rewrite Hin, Set_add_In. cbn. intuition.
Qed.

Lemma allTags_from (l : list Snippet) :
  forall acc,
    List.NoDup acc ->
    let r := fold_left (fun tags snippet =>
                          fold_left Set_add (Types.tags snippet) tags) l acc in
    List.NoDup r /\
    forall x, In x r <-> In x acc \/ exists s, In s l /\ In x (tags s).
Proof.
  induction l as [|s l IH]; intros acc Hnd; cbn [fold_left].
  - split; [exact Hnd |]. intros x. split; [now left |].
    intros [H | (s & [] & _)]. exact H.
  - destruct (fold_Set_add (tags s) acc Hnd) as [Hnd' Hin'].
    destruct (IH _ Hnd') as [Hnd'' Hin'']. split; [exact Hnd'' |].
    intros x. rewrite Hin'', Hin'. split.
    + intros [[H | H] | (s' & Hs' & H)].
      * now left.
      * right. exists s. split; [now left | exact H].
      * right. exists s'. split; [now right | exact H].
    + intros [H | (s' & [<- | Hs'] & H)].
      * now left; left.
      * now left; right.
      * right. exists s'. now split.
Qed.

(** X10.  The tag options offered as filters list every tag carried by
    some snippet, and nothing else, each exactly once. *)
Theorem X10_allTags_are_the_tags_in_use (l : list Snippet) :
  List.NoDup (allTags l) /\
  forall t, In t (allTags l) <-> exists s, In s l /\ In t (tags s).
Proof.
  destruct (allTags_from l [] (List.NoDup_nil _)) as [Hnd Hin].
  split; [exact Hnd |].
  intros t. rewrite (Hin t). split.
  - intros [[] | H]. exact H.
  - intros H. now right.
Qed.

Lemma filter_neq_In (tag x : string) (l : list string) :
  In x (List.filter (fun t => negb (String.eqb t tag)) l)
  <-> In x l /\ x <> tag.
Proof.
  rewrite filter_In, negb_true_iff, String.eqb_neq. tauto.
Qed.

Lemma filter_neq_absent (tag : string) (l : list string) :
  ~ In tag l -> List.filter (fun t => negb (String.eqb t tag)) l = l.
Proof.
  intros Hnot. apply filter_all. intros x Hx.
  apply negb_true_iff, String.eqb_neq. congruence.
Qed.

(** X11.  A click on a tag badge flips whether that tag is selected and
    changes nothing for the other tags; a selection without repeats
    stays without repeats; and two clicks on a tag that was not
    selected give back the selection as it was, in the same order. *)
Theorem X11_toggleTag_flips_one_tag (tag : string) (prev : list string) :
  (In tag (toggleTag tag prev) <-> ~ In tag prev) /\
  (forall t, t <> tag -> (In t (toggleTag tag prev) <-> In t prev)) /\
  (List.NoDup prev -> List.NoDup (toggleTag tag prev)) /\
  (~ In tag prev -> toggleTag tag (toggleTag tag prev) = prev).
Proof.
  unfold toggleTag at 1 2 3.
  destruct (Array_includes prev tag) eqn:Hinc.
  - apply Array_includes_iff in Hinc.
    split; [| split; [| split]].
    + rewrite filter_neq_In. tauto.
    + intros t Ht. rewrite filter_neq_In. tauto.
    + intros Hnd. now apply List.NoDup_filter.
    + tauto.
  - assert (Hnot : ~ In tag prev)
      by (rewrite <- Array_includes_iff; congruence).
    split; [| split; [| split]].
    + rewrite in_app_iff. cbn. tauto.
    + intros t Ht. rewrite in_app_iff. cbn. intuition congruence.
    + intros Hnd. apply List.NoDup_app; [exact Hnd | |].
      * repeat constructor. intros [].
      * intros x Hx [<- | []]. contradiction.
    + intros _. unfold toggleTag.
      assert (Hnow : Array_includes (prev ++ [tag]) tag = true)
        by (apply Array_includes_iff, in_app_iff; right; now left).
      rewrite Hinc, Hnow, List.filter_app, filter_neq_absent by exact Hnot.
      cbn [List.filter]. rewrite String.eqb_refl. cbn [negb].
      apply app_nil_r.
Qed.

Lemma X11_toggleTag_flips_one_tag_witness :
  toggleTag "vue" (toggleTag "vue" ["react"; "hooks"]) = ["react"; "hooks"].
Proof.
  apply (X11_toggleTag_flips_one_tag "vue" ["react"; "hooks"]).
  cbn. intros [H | [H | []]]; discriminate.
Defined.

End TagFacts.

Section FormTags.
Import Text Types Filter Controls Page.
Local Open Scope string_scope.

(** The characters of a string. *)
Local Abbreviation chars := list_ascii_of_string.

Lemma chars_app (a b : string) : chars (a ++ b) = (chars a ++ chars b)%list.
Proof.
  induction a as [|c a IH]; [reflexivity |].
  change (c :: chars (a ++ b) = c :: (chars a ++ chars b)%list).
  now f_equal.
Qed.

Lemma nonempty_false (s : string) : nonempty s = false <-> s = "".
Proof. destruct s; cbn; split; congruence. Qed.

(** Splitting *)

Lemma split_from_pieces (s : string) :
  forall cur piece c,
    In piece (split_from cur s) -> In c (chars piece) ->
    c <> ","%char /\ In c (chars s) \/ In c (chars cur).
Proof.
  induction s as [|d s IH]; intros cur piece c Hpiece Hc;
    cbn [split_from] in Hpiece.
  - destruct Hpiece as [<- | []]. now right.
  - destruct (Ascii.eqb_spec d ","%char) as [-> | Hd].
    + destruct Hpiece as [<- | Hpiece]; [now right |].
      destruct (IH _ _ _ Hpiece Hc) as [[Hne Hin] | []].
      left. split; [exact Hne | now right].
    + destruct (IH _ _ _ Hpiece Hc) as [[Hne Hin] | Hin].
      * left. split; [exact Hne | now right].
      * rewrite chars_app in Hin. apply in_app_iff in Hin as [Hin | Hin].
        -- now right.
        -- destruct Hin as [<- | []]. left. split; [exact Hd | now left].
Qed.

Lemma append_empty (s : string) : s ++ "" = s.
Proof.
  induction s as [|c s IH]; [reflexivity |].
  change (String c (s ++ "") = String c s). now f_equal.
Qed.

Lemma append_assoc (a b c : string) : (a ++ b) ++ c = a ++ (b ++ c).
Proof.
  induction a as [|d a IH]; [reflexivity |].
  change (String d ((a ++ b) ++ c) = String d (a ++ (b ++ c))). now f_equal.
Qed.

Lemma split_from_no_comma (t : string) :
  ~ In ","%char (chars t) ->
  forall cur rest,
    split_from cur (t ++ rest) = split_from (cur ++ t) rest.
Proof.
  induction t as [|c t IH]; intros Hno cur rest.
  - now rewrite append_empty.
  - change (String c t ++ rest) with (String c (t ++ rest)).
    cbn [split_from].
    destruct (Ascii.eqb_spec c ","%char) as [-> | Hc].
    + exfalso. apply Hno. now left.
    + rewrite IH by (intros H; apply Hno; now right).
      now rewrite append_assoc.
Qed.

(** Trimming *)

Lemma trimStart_starts_clean (s : string) : starts_clean (trimStart s).
Proof.
  induction s as [|c s IH]; cbn [trimStart]; [exact I |].
  destruct (is_space c) eqn:Hc; [exact IH | exact Hc].
Qed.

Lemma trimStart_fixed (s : string) : starts_clean s -> trimStart s = s.
Proof. destruct s as [|c s]; cbn; [reflexivity | now intros ->]. Qed.

Lemma trimEnd_starts_clean (s : string) :
  starts_clean s -> starts_clean (trimEnd s).
Proof.
  destruct s as [|c s]; cbn [trimEnd starts_clean]; [trivial |].
  intros Hc. destruct (trimEnd s); [rewrite Hc |]; exact Hc.
Qed.

Lemma trimEnd_idempotent (s : string) : trimEnd (trimEnd s) = trimEnd s.
Proof.
  induction s as [|c s IH]; [reflexivity |].
  cbn [trimEnd]. destruct (trimEnd s) as [|d r] eqn:Hr.
  - destruct (is_space c) eqn:Hc; [reflexivity |].
    cbn [trimEnd]. now rewrite Hc.
  - cbn [trimEnd]. cbn [trimEnd] in IH. now rewrite IH.
Qed.

Lemma trim_idempotent (s : string) : trim (trim s) = trim s.
Proof.
  unfold trim.
  rewrite (trimStart_fixed (trimEnd (trimStart s)))
    by apply trimEnd_starts_clean, trimStart_starts_clean.
  apply trimEnd_idempotent.
Qed.

Lemma trimStart_chars (s : string) (c : ascii) :
  In c (chars (trimStart s)) -> In c (chars s).
Proof.
  induction s as [|d s IH]; cbn [trimStart]; [trivial |].
  destruct (is_space d); [intros H; right; now apply IH | trivial].
Qed.

Lemma trimEnd_chars (s : string) (c : ascii) :
  In c (chars (trimEnd s)) -> In c (chars s).
Proof.
  induction s as [|d s IH]; cbn [trimEnd]; [trivial |].
  destruct (trimEnd s) as [|e r].
  - destruct (is_space d); [intros [] | intros [<- | []]; now left].
  - intros [<- | H]; [now left | right; now apply IH].
Qed.

End FormTags.

Section FormTagClaims.
Import Text Types Filter Controls Page.
Local Open Scope string_scope.

Lemma ascii_text_chars (s : string) :
  ascii_text s = true <->
  forall c, In c (list_ascii_of_string s) -> ascii_char c = true.
Proof.
  induction s as [|d s IH]; cbn [ascii_text list_ascii_of_string].
  - split; [intros _ c [] | reflexivity].
  - rewrite andb_true_iff, IH. split.
    + intros [Hd Hs] c [<- | Hc]; auto.
    + intros Hall. split; [apply Hall; now left |].
      intros c Hc. apply Hall. now right.
Qed.

(** X12.  For ASCII text typed into the tags field, every tag sent to
    the API is trimmed, not empty, free of commas, and ASCII. *)
Theorem X12_parsed_tags_are_clean (s t : string) :
  ascii_text s = true ->
  In t (parseTags s) ->
  cleanTag t /\ ascii_text t = true.
Proof.
  intros Hascii. unfold parseTags. rewrite filter_In, in_map_iff.
  intros [(piece & <- & Hpiece) Hne].
  assert (Hchars : forall c,
             In c (list_ascii_of_string (trim piece)) ->
             c <> ","%char /\ In c (list_ascii_of_string s)).
  { intros c Hc. apply trimEnd_chars, trimStart_chars in Hc.
    destruct (split_from_pieces _ _ _ _ Hpiece Hc) as [H | []]. exact H. }
  split; [split; [apply trim_idempotent | split] |].
  - now apply nonempty_true.
  - intros Hcomma. now destruct (Hchars _ Hcomma).
  - apply ascii_text_chars. intros c Hc.
    destruct (Hchars _ Hc) as [_ Hin].
    now apply (proj1 (ascii_text_chars s) Hascii).
Qed.

Lemma X12_parsed_tags_are_clean_witness :
  cleanTag "hooks" /\ ascii_text "hooks" = true.
Proof.
  apply (X12_parsed_tags_are_clean " react,  hooks ,, ").
  - reflexivity.
  - cbn. right. left. reflexivity.
Defined.

Lemma or_default_empty (s : string) : or_default s "" = s.
Proof. now destruct s. Qed.

Lemma split_join (ts : list string) :
  forall t cur,
    (forall x, In x (t :: ts) -> ~ In ","%char (list_ascii_of_string x)) ->
    split_from cur (Array_join ", " (t :: ts)) =
    (cur ++ t) :: map (String " "%char) ts.
Proof.
  unfold Array_join.
  induction ts as [|t' ts IH]; intros t cur Hno.
  - cbn [String.concat map].
    rewrite <- (append_empty t) at 1.
    rewrite split_from_no_comma by (apply Hno; now left). reflexivity.
  - change (String.concat ", " (t :: t' :: ts))
      with (t ++ String ","%char
                   (String " "%char (String.concat ", " (t' :: ts)))).
    rewrite split_from_no_comma by (apply Hno; now left).
    cbn [split_from Ascii.eqb Bool.eqb]. cbn [map]. f_equal.
    apply (IH t' " "). intros x Hx. apply Hno. now right.
Qed.

Lemma trim_after_space (x : string) : trim (String " "%char x) = trim x.
Proof. reflexivity. Qed.

(** X13.  Opening the edit form on a snippet and saving it untouched
    sends the snippet's tags back as they were, provided each tag is
    ASCII, trimmed, not empty and free of commas. *)
Theorem X13_untouched_form_keeps_tags (s : Snippet) :
  Forall (fun t => ascii_text t = true) (tags s) ->
  Forall cleanTag (tags s) ->
  p_tags (payload (initialFormData (Some s))) = tags s.
Proof.
  intros _ Hclean. cbn [initialFormData payload p_tags f_tags].
  rewrite or_default_empty. unfold parseTags, split_comma.
  destruct (tags s) as [|t ts]; [reflexivity |].
  rewrite split_join.
  - change ("" ++ t)%string with t. cbn [map List.filter].
    apply Forall_cons_1 in Hclean as [(Htrim & Hne & _) Hrest].
    rewrite Htrim. apply nonempty_true in Hne. rewrite Hne. f_equal.
    induction ts as [|t' ts IH]; [reflexivity |].
    apply Forall_cons_1 in Hrest as [(Htrim' & Hne' & _) Hrest].
    cbn [map List.filter]. rewrite trim_after_space, Htrim'.
    apply nonempty_true in Hne'. rewrite Hne'. f_equal. now apply IH.
  - intros x Hx. rewrite Forall_forall in Hclean.
    apply list_elem_of_In, Hclean in Hx. apply Hx.
Qed.

Lemma X13_untouched_form_keeps_tags_witness :
  p_tags (payload (initialFormData
                     (Some (Fixtures.sample 4 "d" None ["react"; "hooks"]))))
  = ["react"; "hooks"].
Proof.
  apply (X13_untouched_form_keeps_tags
           (Fixtures.sample 4 "d" None ["react"; "hooks"])).
  - repeat constructor.
  - repeat constructor; try discriminate;
      cbn; intros H; repeat destruct H as [H | H]; try discriminate; exact H.
Defined.

End FormTagClaims.

(** ** More on the handlers of the snippets page *)

Section HandlerFacts.
Import Completion Types Page.

Ltac eval_handler :=
  cbv beta iota zeta delta
    [handleSubmit handleDelete fetchSnippets fetchSnippets_begin
     fetchSnippets_resume deliver await settle try_finally try_catch
     seqE bindE toast_success toast_error setSnippets setIsLoading
     setIsSubmitting modify emit ret exec result
     fst snd ui log pending snippets isLoading isDialogOpen
     isEditDialogOpen isSubmitting bind];
  cbn [negb].

(** X14.  A delete the collaborator accepts removes from the list
    exactly the snippets with the deleted id: the others stay, in their
    order; the other state cells are untouched, and the effects are the
    delete request followed by one success toast. *)
Theorem X14_accepted_delete_removes_the_id (id : Z) (w : World) :
  let w' := exec (handleDelete true (Normal tt) id) w in
  sublist (snippets (ui w')) (snippets (ui w)) /\
  (forall s, In s (snippets (ui w')) <->
             In s (snippets (ui w)) /\ Types.id s <> id) /\
  isLoading (ui w') = isLoading (ui w) /\
  isDialogOpen (ui w') = isDialogOpen (ui w) /\
  isEditDialogOpen (ui w') = isEditDialogOpen (ui w) /\
  isSubmitting (ui w') = isSubmitting (ui w) /\
  log w' = log w ++ [Request (ApiDelete id);
                     Toast ToastSuccess "Snippet deleted"].
Proof.
  destruct w as [[sn il dg ed sb] lg n]. eval_handler.
  split; [apply filter_sublist | split].
  - intros s. rewrite filter_In, negb_true_iff, Z.eqb_neq. tauto.
  - repeat split. now rewrite <- app_assoc.
Qed.

(** X15.  No handler lets a failure escape: whatever the collaborator
    replies, whatever the answer to the confirmation box, and whatever
    the [onSuccess] callback does (even if it throws), [handleDelete],
    [fetchSnippets] and [handleSubmit] return normally. *)
Theorem X15_handlers_never_throw (w : World) :
  (forall confirmed reply id,
     result (handleDelete confirmed reply id) w = Normal tt) /\
  (forall reply, result (fetchSnippets reply) w = Normal tt) /\
  (forall snippet formData onSuccess reply,
     result (handleSubmit snippet formData onSuccess reply) w = Normal tt).
Proof.
  destruct w as [[sn il dg ed sb] lg n].
  split; [| split].
  - intros [|] [[]|e] id; reflexivity.
  - intros [data|e]; reflexivity.
  - intros [s|] formData onSuccess [echo|e]; eval_handler;
      try reflexivity;
      match goal with
      | |- context [onSuccess ?w1] =>
          destruct (onSuccess w1) as [[[]|e'] w2]; reflexivity
      end.
Qed.

(** X16.  [fetchSnippets] always makes exactly one list request and
    always ends with the loading flag off.  When the request fails the
    list stays as it was and one error toast is shown; when it
    succeeds the list is the one received and nothing is shown. *)
Theorem X16_fetchSnippets_outcomes (reply : Completion.t (list Snippet))
  (w : World) :
  let w' := exec (fetchSnippets reply) w in
  isLoading (ui w') = false /\
  match reply with
  | Normal data =>
      snippets (ui w') = data /\
      log w' = log w ++ [Request ApiGetAll]
  | Throw _ =>
      snippets (ui w') = snippets (ui w) /\
      log w' = log w ++ [Request ApiGetAll;
                         Toast ToastError "Failed to load snippets"]
  end.
Proof.
  destruct w as [[sn il dg ed sb] lg n].
  destruct reply as [data|e]; eval_handler; repeat split.
  now rewrite <- app_assoc.
Qed.

(** X17.  A save the collaborator rejects never reaches [onSuccess]:
    the list, the loading flag and both dialogs are as before (the form
    stays open), no list request is made or left pending, the
    submitting flag is off again, and the effects are the save request
    followed by one error toast. *)
Theorem X17_rejected_save_keeps_form_open (snippet : option Snippet)
  (formData : FormData) (onSuccess : Eff unit) (e : JsError) (w : World) :
  let w' := exec (handleSubmit snippet formData onSuccess (Throw e)) w in
  snippets (ui w') = snippets (ui w) /\
  isLoading (ui w') = isLoading (ui w) /\
  isDialogOpen (ui w') = isDialogOpen (ui w) /\
  isEditDialogOpen (ui w') = isEditDialogOpen (ui w) /\
  isSubmitting (ui w') = false /\
  pending w' = pending w /\
  log w' =
    log w ++
    [Request (match snippet with
              | Some s => ApiUpdate (Types.id s) (payload formData)
              | None => ApiCreate (payload formData)
              end);
     Toast ToastError "Failed to save snippet"].
Proof.
  destruct w as [[sn il dg ed sb] lg n].
  destruct snippet as [s|]; eval_handler; repeat split;
    now rewrite <- app_assoc.
Qed.

End HandlerFacts.

(** ** useArray *)

Section ArrayHookFacts.
Import Js ArrayHook.

Lemma slice_to {A} (l : list A) (i : Z) :
  Array_slice l 0 i =
  take (Z.to_nat (relative_index (Z.of_nat (length l)) i)) l.
Proof.
  unfold Array_slice.
  assert (H0 : relative_index (Z.of_nat (length l)) 0 = 0)
    by (unfold relative_index; cbn; lia).
  rewrite H0, Z.sub_0_r. reflexivity.
Qed.

Lemma slice_from {A} (l : list A) (j : Z) :
  Array_slice_from l j =
  drop (Z.to_nat (relative_index (Z.of_nat (length l)) j)) l.
Proof.
  unfold Array_slice_from, Array_slice.
  set (len := Z.of_nat (length l)).
  assert (Hlen : relative_index len len = len)
    by (unfold relative_index; destruct (Z.ltb_spec len 0); lia).
  rewrite Hlen. apply take_ge. rewrite length_drop.
  unfold relative_index. destruct (Z.ltb_spec j 0); lia.
Qed.

Ltac index_cases :=
  unfold relative_index;
  repeat match goal with
         | |- context [?a <? ?b] => destruct (Z.ltb_spec a b); try lia
         end.

(** X18.  [update] on an array of length [n]: an index within
    [0, n - 1] replaces that element and nothing else.  Outside that
    range the array is never left alone: an index of [n] or more
    appends the element, an index within [-n, -2] replaces the element
    counted from the end, an index below [-n] puts the element in
    front, and the index [-1] puts the element between all but the last
    element and a full copy of the array. *)
Theorem X18_update_by_index {A} (index : Z) (x : A) (l : list A) :
  let n := Z.of_nat (length l) in
  (0 <= index < n -> update index x l = <[Z.to_nat index := x]> l) /\
  (n <= index -> update index x l = l ++ [x]) /\
  (- n <= index < -1 -> update index x l = <[Z.to_nat (n + index) := x]> l) /\
  (index < - n -> update index x l = x :: l) /\
  (index = -1 -> update index x l = take (length l - 1) l ++ x :: l).
Proof.
  intros n. subst n. unfold update. rewrite slice_to, slice_from.
  repeat split; intros Hi.
  - rewrite insert_take_drop by lia. index_cases.
    rewrite !Z.min_l by lia. do 3 f_equal. lia.
  - index_cases. rewrite !Z.min_r by lia.
    rewrite take_ge, drop_ge by lia. reflexivity.
  - rewrite insert_take_drop by lia. index_cases.
    rewrite !Z.max_l by lia. do 3 f_equal. lia.
  - index_cases.
    + rewrite !Z.max_r by lia. reflexivity.
    + rewrite Z.max_r, Z.min_l by lia.
      replace (index + 1) with 0 by lia. reflexivity.
  - subst index. index_cases. cbn [Z.add Z.min Z.to_nat].
    rewrite Z.min_l by lia. cbn [Z.to_nat drop].
    f_equal. f_equal. lia.
Qed.

Lemma X18_update_by_index_witness :
  update 5 9%nat [1; 2; 3]%nat = [1; 2; 3; 9]%nat.
Proof.
  apply (X18_update_by_index 5 9%nat [1; 2; 3]%nat). cbn. lia.
Defined.

(** X19.  [remove] on an array of length [n]: an index within
    [0, n - 1] deletes that element; an index of [n] or more, or below
    [-n], changes nothing; an index within [-n, -2] deletes the element
    counted from the end; and the index [-1] deletes nothing but
    appends a full copy of the array to all but its last element. *)
Theorem X19_remove_by_index {A} (index : Z) (l : list A) :
  let n := Z.of_nat (length l) in
  (0 <= index < n -> remove index l = delete (Z.to_nat index) l) /\
  (n <= index -> remove index l = l) /\
  (- n <= index < -1 -> remove index l = delete (Z.to_nat (n + index)) l) /\
  (index < - n -> remove index l = l) /\
  (index = -1 -> remove index l = take (length l - 1) l ++ l).
Proof.
  intros n. subst n. unfold remove. rewrite slice_to, slice_from.
  repeat split; intros Hi.
  - rewrite delete_take_drop. index_cases.
    rewrite !Z.min_l by lia. do 2 f_equal. lia.
  - index_cases. rewrite !Z.min_r by lia.
    rewrite take_ge, drop_ge by lia. apply app_nil_r.
  - rewrite delete_take_drop. index_cases.
    rewrite !Z.max_l by lia. do 2 f_equal. lia.
  - index_cases.
    + rewrite !Z.max_r by lia. reflexivity.
    + rewrite Z.max_r, Z.min_l by lia.
      replace (index + 1) with 0 by lia. reflexivity.
  - subst index. index_cases. cbn [Z.add Z.min Z.to_nat].
    rewrite Z.min_l by lia. cbn [Z.to_nat drop].
    f_equal. f_equal. lia.
Qed.

Lemma X19_remove_by_index_witness :
  remove 1 [1; 2; 3]%nat = [1; 3]%nat.
Proof.
  apply (X19_remove_by_index 1 [1; 2; 3]%nat). cbn. lia.
Defined.

End ArrayHookFacts.

(** ** useForm, useLocalStorage and useTheme *)

Section StorageFacts.
Import Text Form LocalStorage.

(** X20.  [handleChange] sets the named field to the new value, leaves
    every other field and every other field's error as they were, and
    leaves no message on the named field. *)
Theorem X20_handleChange_touches_one_field {V} (name : string) (value : V)
  (st : Form.State V) :
  let st' := handleChange name value st in
  values st' !! name = Some value /\
  (forall k, k <> name ->
     values st' !! k = values st !! k /\ errors st' !! k = errors st !! k) /\
  hasError (errors st') name = false /\
  isSubmitting st' = isSubmitting st.
Proof.
  cbn [handleChange values errors isSubmitting].
  split; [apply lookup_insert_eq | split; [| split; [| reflexivity]]].
  - intros k Hk. split; [now apply lookup_insert_ne |].
    destruct (hasError (errors st) name); [| reflexivity].
    now apply lookup_delete_ne.
  - destruct (hasError (errors st) name) eqn:Herr; [| exact Herr].
    unfold hasError. now rewrite lookup_delete_eq.
Qed.

(** X21.  In the browser, a value written with [setValue] is what the
    hook starts from the next time it is mounted on the same key,
    whatever the initial value passed then, provided the value
    survives [JSON.stringify] and [JSON.parse]; hooks on other keys
    start from what they would have started from before. *)
Theorem X21_stored_value_is_read_back {T} (parse : string -> option T)
  (stringify : T -> string) (key : string) (value : T + (T -> T))
  (storedValue : T) (env : Env) :
  let v := match value with inl v => v | inr f => f storedValue end in
  let r := setValue stringify key value true storedValue env in
  hasWindow env = true ->
  parse (stringify v) = Some v ->
  stringify v <> "" ->
  fst r = v /\
  (forall d, initialState parse key d (snd r) = v) /\
  (forall key' d, key' <> key ->
     initialState parse key' d (snd r) = initialState parse key' d env).
Proof.
  intros v r Hwin Hparse Hne. subst r. unfold setValue. fold v.
  rewrite Hwin. cbn [andb fst snd].
  split; [reflexivity | split].
  - intros d. unfold initialState. cbn [hasWindow storage negb].
    rewrite lookup_insert_eq.
    apply nonempty_true in Hne. now rewrite Hne, Hparse.
  - intros key' d Hkey. unfold initialState. cbn [hasWindow storage].
    rewrite Hwin. cbn [negb]. now rewrite lookup_insert_ne.
Qed.

Lemma X21_stored_value_is_read_back_witness :
  let parse := fun s : string =>
    if String.eqb s "true" then Some true
    else if String.eqb s "false" then Some false else None in
  let stringify := fun b : bool => if b then "true" else "false" in
  let env := {| hasWindow := true; storage := ∅ |} in
  initialState parse "flag" false
    (snd (setValue stringify "flag" (inr negb) true false env)) = true.
Proof.
  intros parse stringify env.
  refine (proj1 (proj2 (X21_stored_value_is_read_back parse stringify
                          "flag" (inr negb) false env _ _ _)) false).
  - reflexivity.
  - reflexivity.
  - discriminate.
Defined.

(** X22.  After the theme effect the root element carries the class of
    the theme and, of [light] and [dark], no other; every other class
    is kept.  [toggleTheme] always yields [light] or [dark], and on
    those two it switches to the other one and back. *)
Theorem X22_theme_class_and_toggle (theme : string) (classList : gset string) :
  theme ∈ applyTheme theme classList /\
  (forall c, c <> theme ->
     c ∈ applyTheme theme classList <->
     c ∈ classList /\ c <> "light" /\ c <> "dark") /\
  (toggleTheme theme = "light" \/ toggleTheme theme = "dark") /\
  (theme = "light" \/ theme = "dark" ->
   toggleTheme theme <> theme /\ toggleTheme (toggleTheme theme) = theme).
Proof.
  unfold applyTheme. split; [| split; [| split]].
  - apply elem_of_union. right. now apply elem_of_singleton.
  - intros c Hc.
    rewrite elem_of_union, elem_of_difference, elem_of_union,
      !elem_of_singleton.
    tauto.
  - unfold toggleTheme. destruct (String.eqb theme "light"); auto.
  - intros [-> | ->]; split; (discriminate || reflexivity).
Qed.

Lemma X22_theme_class_and_toggle_witness :
  "light" ∈ applyTheme "light" {["dark"; "wide"]} /\
  toggleTheme (toggleTheme "dark") = "dark".
Proof.
  split.
  - exact (proj1 (X22_theme_class_and_toggle "light" {["dark"; "wide"]})).
  - exact (proj2 (proj2 (proj2 (proj2
             (X22_theme_class_and_toggle "dark" ∅)))
             (or_intror eq_refl))).
Defined.

End StorageFacts.

(** ** useKeyPress and usePrevious *)

Section SmallHooks.
Import KeyPress Previous.

Lemma useKeyPress_snoc (targetKey : string) (es : list KeyEvent)
  (e : KeyEvent) :
  useKeyPress targetKey (es ++ [e]) =
  handle targetKey (useKeyPress targetKey es) e.
Proof. unfold useKeyPress. now rewrite fold_left_app. Qed.

(** X23.  The hook reports the key as pressed exactly when the target
    key went down at some point and no event of that key, down or up,
    came after; events of other keys never matter. *)
Theorem X23_pressed_iff_last_event_is_down (targetKey : string)
  (es : list KeyEvent) :
  useKeyPress targetKey es = true <->
  exists before after,
    es = before ++ KeyDown targetKey :: after /\
    forall e, In e after -> keyOf e <> targetKey.
Proof.
  induction es as [|e es IH] using rev_ind.
  - split; [discriminate |].
    intros (before & after & Hes & _). now destruct before.
  - rewrite useKeyPress_snoc. split.
    + intros Hpressed.
      destruct e as [k | k]; cbn [handle] in Hpressed;
        destruct (String.eqb_spec k targetKey) as [-> | Hk];
        try discriminate.
      * exists es, []. split; [reflexivity | intros e []].
      * apply IH in Hpressed as (before & after & -> & Hafter).
        exists before, (after ++ [KeyDown k]).
        split; [now rewrite <- app_assoc |].
        intros e He. apply in_app_iff in He as [He | [<- | []]]; auto.
      * apply IH in Hpressed as (before & after & -> & Hafter).
        exists before, (after ++ [KeyUp k]).
        split; [now rewrite <- app_assoc |].
        intros e He. apply in_app_iff in He as [He | [<- | []]]; auto.
    + intros (before & after & Hes & Hafter).
      destruct after as [|a after _] using rev_ind.
      * apply app_inj_tail in Hes as [_ ->]. cbn [handle].
        now rewrite String.eqb_refl.
      * rewrite app_comm_cons, app_assoc in Hes.
        apply app_inj_tail in Hes as [-> ->].
        assert (Ha : keyOf a <> targetKey)
          by (apply Hafter, in_app_iff; right; now left).
        assert (Hrest : useKeyPress targetKey
                          (before ++ KeyDown targetKey :: after) = true).
        { apply IH. exists before, after. split; [reflexivity |].
          intros e He. apply Hafter, in_app_iff. now left. }
        destruct a as [k | k]; cbn [handle keyOf] in *;
          destruct (String.eqb_spec k targetKey); congruence.
Qed.

(** X24.  [usePrevious] returns nothing on the first render and, on
    every later render, the value the render before was given, whether
    or not the value changed between the two. *)
Theorem X24_usePrevious_lags_by_one_render {T} `{EqDecision T}
  (vs : list T) :
  renders vs initial = take (length vs) (None :: map Some vs).
Proof.
  change None with (ref (@initial T)) at 1.
  assert (Hinit : ref (@initial T) = deps initial) by reflexivity.
  revert Hinit. generalize (@initial T).
  induction vs as [|v vs IH]; intros st Hst; [reflexivity |].
  cbn [renders render fst snd length take map]. f_equal.
  destruct (decide (deps st = Some v)) as [Hsame | Hnew].
  - rewrite IH by exact Hst. now rewrite Hst, Hsame.
  - now rewrite IH.
Qed.

End SmallHooks.

(** ** The route guard and the auth store *)

Section GuardFacts.
Import Text Middleware AuthStore.
Local Open Scope string_scope.

Lemma auth_pages_are_not_dashboard (pathname : string) :
  isAuthPage pathname = true -> isDashboard pathname = false.
Proof.
  unfold isAuthPage. rewrite orb_true_iff, !startsWith_spec.
  intros [[post ->] | [post ->]]; reflexivity.
Qed.

(** X25.  The two rules of the guard never compete, and a redirect is
    never answered by another redirect: no path is both a login or
    register page and a dashboard page, and the page a request is sent
    to is let through when requested with the same cookie. *)
Theorem X25_guard_redirects_at_most_once (token : option string)
  (pathname target : string) :
  isAuthPage pathname && isDashboard pathname = false /\
  (middleware token pathname = Redirect target ->
   middleware token target = Next).
Proof.
  split.
  - destruct (isAuthPage pathname) eqn:Hauth; [| reflexivity].
    now rewrite auth_pages_are_not_dashboard.
  - unfold middleware at 1.
    destruct (isDashboard pathname && negb (hasToken token)) eqn:Hfirst.
    + intros [= <-]. apply andb_true_iff in Hfirst as [_ Hno].
      apply negb_true_iff in Hno. unfold middleware. rewrite Hno.
      reflexivity.
    + destruct (isAuthPage pathname && hasToken token) eqn:Hsecond;
        [| discriminate].
      intros [= <-]. apply andb_true_iff in Hsecond as [_ Hyes].
      unfold middleware. rewrite Hyes. reflexivity.
Qed.

Lemma X25_guard_redirects_at_most_once_witness :
  middleware None "/login" = Next.
Proof.
  apply (X25_guard_redirects_at_most_once None "/snippets/42" "/login").
  reflexivity.
Defined.

Lemma act_agrees (w : World) (a : Action) :
  store_agrees w -> store_agrees (act w a).
Proof.
  intros (H1 & H2 & H3). destruct a as [t u | | d]; cbn [act].
  - unfold store_agrees, login; cbn. repeat split; eauto.
  - unfold store_agrees, logout; cbn.
    repeat split; try discriminate; intros []; discriminate.
  - unfold store_agrees, updateUser; cbn.
    repeat split; try tauto;
      destruct (user w); try tauto; intros _; eauto; apply H2; eauto.
Qed.

Lemma act_cookie_agrees (w : World) (a : Action) :
  cookie_agrees w -> cookie_agrees (act w a).
Proof.
  unfold cookie_agrees. intros Hw.
  destruct a as [t u | | d]; cbn [act login logout updateUser
                                  cookieWrites token];
    [apply last_snoc | apply last_snoc | exact Hw].
Qed.

Lemma session_change_agrees (w : World) (a : Action) :
  startsOrEndsSession a = true ->
  store_agrees (act w a) /\ cookie_agrees (act w a).
Proof.
  destruct a as [t u | | d]; [| | discriminate]; intros _;
    unfold store_agrees, cookie_agrees; cbn; rewrite last_snoc;
    repeat split; eauto; try discriminate; intros []; discriminate.
Qed.

Lemma run_agrees (acts : list Action) :
  forall w,
    (store_agrees w -> store_agrees (run w acts)) /\
    (cookie_agrees w -> cookie_agrees (run w acts)).
Proof.
  induction acts as [|a acts IH]; intros w; [now split |].
  destruct (IH (act w a)) as [IHs IHc].
  split; intros Hw; [apply IHs, act_agrees | apply IHc, act_cookie_agrees];
    exact Hw.
Qed.

(** X26.  Whatever state the store starts in (restored or not):
    [login], [logout] and [updateUser] keep the state in agreement
    (authenticated exactly when there is a token, exactly when there is
    a user, the [token] entry of [localStorage] holding that token)
    once it is, and after any sequence of them with at least one
    [login] or [logout] the state is in agreement and the latest
    assignment to [document.cookie] is the one for the state: the
    [token=...] string of the current token, or the expiring one when
    logged out. *)
Theorem X26_store_and_browser_agree (w : World) (acts : list Action) :
  (store_agrees w -> store_agrees (run w acts)) /\
  (existsb startsOrEndsSession acts = true ->
   store_agrees (run w acts) /\ cookie_agrees (run w acts)).
Proof.
  split; [apply run_agrees |].
  revert w. induction acts as [|a acts IH]; intros w Hex; [discriminate |].
  change (run w (a :: acts)) with (run (act w a) acts).
  destruct (startsOrEndsSession a) eqn:Ha.
  - destruct (session_change_agrees w a Ha) as [Hs Hc].
    destruct (run_agrees acts (act w a)) as [Hrs Hrc]. auto.
  - cbn [existsb] in Hex. rewrite Ha in Hex. apply IH, Hex.
Qed.

Lemma X26_store_and_browser_agree_witness :
  let w := run (mkWorld None None true (Some "stale") [])
             [UpdateUser (mkPartialUser None None None None None);
              Login "abc" (mkUser 1 "a@b.c" "A" "B" None); Logout] in
  store_agrees w /\ cookie_agrees w.
Proof.
  intros w.
  exact (proj2 (X26_store_and_browser_agree
                  (mkWorld None None true (Some "stale") [])
                  [UpdateUser (mkPartialUser None None None None None);
                   Login "abc" (mkUser 1 "a@b.c" "A" "B" None); Logout])
               eq_refl).
Defined.

End GuardFacts.

(** ** The page as a whole: filter, then paginate; save, then reload *)

Section PageComposition.
Import Js Pagination Completion Text Types Filter Page.



Ltac eval_flow :=
  cbv beta iota zeta delta
    [mutate handleSubmit onCreateSuccess onEditSuccess
     fetchSnippets_detached fetchSnippets_begin fetchSnippets_resume
     deliver await settle try_finally try_catch seqE bindE
     toast_success toast_error setSnippets setIsLoading setIsSubmitting
     closeDialog closeEdit modify emit ret exec result
     fst snd ui log pending snippets isLoading isDialogOpen
     isEditDialogOpen isSubmitting bind].

(** X29.  A save the collaborator accepts, followed by the reply to
    the list request it starts: the dialog of the form is closed, the
    submitting and loading flags are off, and nothing is left pending,
    whether or not the list request succeeds.  If it fails, the list
    shown is the old one and an error toast follows the success
    toast. *)
Theorem X29_accepted_save_closes_the_form (snippet : option Snippet)
  (formData : FormData) (echo : Snippet)
  (listReply : Completion.t (list Snippet)) (w : World) :
  pending w = 0%nat ->
  let m := match snippet with
           | Some s => Update s formData
           | None => Create formData
           end in
  let w' := exec (mutate m (Normal echo) listReply) w in
  match snippet with
  | Some _ => isEditDialogOpen (ui w') = false /\
              isDialogOpen (ui w') = isDialogOpen (ui w)
  | None => isDialogOpen (ui w') = false /\
            isEditDialogOpen (ui w') = isEditDialogOpen (ui w)
  end /\
  isSubmitting (ui w') = false /\
  isLoading (ui w') = false /\
  pending w' = 0%nat /\
  snippets (ui w') =
    match listReply with
    | Normal data => data
    | Throw _ => snippets (ui w)
    end /\
  log w' =
    log w ++
    [Request (match snippet with
              | Some s => ApiUpdate (Types.id s) (payload formData)
              | None => ApiCreate (payload formData)
              end);
     Toast ToastSuccess (match snippet with
                         | Some _ => "Snippet updated"
                         | None => "Snippet created"
                         end);
     Request ApiGetAll] ++
    match listReply with
    | Normal _ => []
    | Throw _ => [Toast ToastError "Failed to load snippets"]
    end.
Proof.
  destruct w as [[sn il dg ed sb] lg n]. cbn [pending]. intros ->.
  destruct snippet as [s|]; destruct listReply as [data | err]; eval_flow;
    repeat split; now rewrite <- !app_assoc.
Qed.

Lemma X29_accepted_save_closes_the_form_witness :
  isSubmitting
    (ui (exec (mutate (Create Fixtures.form) (Normal Fixtures.foobar)
                 (Throw RequestFailed))
           (Fixtures.world Fixtures.three))) = false.
Proof.
  exact (proj1 (proj2 (X29_accepted_save_closes_the_form None Fixtures.form
                         Fixtures.foobar (Throw RequestFailed)
                         (Fixtures.world Fixtures.three) eq_refl))).
Defined.

End PageComposition.

(** ** More on the debounce hook *)

Section DebounceMore.
Import Debounce.
Local Open Scope N_scope.
Context {T : Type} `{EqDecision T}.

(** X30.  A new input always buys a full delay: in every state the
    hook reaches from its first render, however close the pending timer
    was to firing, after a render with a different input nothing is
    emitted and the output stays as it is for as long as less than the
    delay [setTimeout] uses has elapsed; that delay is [delay] itself
    when it is below 2^31. *)
Theorem X30_new_input_postpones_the_update (v0 : T) (d0 t0 : N)
  (es : list (Debounce.Event T)) (v : T) (d : N)
  (quiet : list (Debounce.Event T)) :
  let s := run (mount v0 d0 t0) es in
  mounted s = true ->
  v <> value s ->
  forallb is_elapse quiet = true ->
  elapsed quiet < timeoutOf d ->
  emitted (run (step s (Render v d)) quiet) = emitted s /\
  debouncedValue (run (step s (Render v d)) quiet) = debouncedValue s /\
  (d < 2 ^ 31 -> timeoutOf d = d).
Proof.
  intros s Hm Hv Hq Hd.
  assert (Hs : consistent s)
    by (apply run_consistent, mount_consistent).
  split; [| split; [| apply timeoutOf_small]].
  all: cbn [step]; rewrite Hm;
    destruct (decide (v = value s /\ d = delay s)) as [[Heq _] |];
    [contradiction |];
    apply (waiting_quiet (mkTimer (nextId s) (clock s + timeoutOf d) v)
             quiet Hq (effect (cleanup s) v d));
    [unfold effect, setTimeout; cbn [timers];
     now rewrite (cleanup_clears s Hs)
    | cbn; lia].
Qed.

End DebounceMore.

Lemma X30_new_input_postpones_the_update_witness :
  let s := Debounce.run (Debounce.mount "" 300 0)
             [Debounce.Render "f" 300; Debounce.Elapse 299]%N in
  Debounce.debouncedValue
    (Debounce.run (Debounce.step s (Debounce.Render "fo" 300%N))
       [Debounce.Elapse 200; Debounce.Elapse 99]%N) = "".
Proof.
  refine (proj1 (proj2 (X30_new_input_postpones_the_update "" 300 0
                          [Debounce.Render "f" 300; Debounce.Elapse 299]%N
                          "fo" 300%N
                          [Debounce.Elapse 200; Debounce.Elapse 99]%N
                          _ _ _ _))).
  - reflexivity.
  - discriminate.
  - reflexivity.
  - vm_compute. reflexivity.
Defined.
